(** * Paper2Slides: the direct-ingestion core

    A shallow embedding of [src/api/ingestor/md_parser.py],
    [src/api/ingestor/tex_parser.py], [src/api/ingestor/zip_handler.py] and
    [src/api/ingestor/ingestor.py], followed by the properties of the
    specification that can be settled on it.

    Modelling conventions.
    - A Python [str] is a [list ascii]; every character stands for the code
      point of the same number, so the model covers text over the code
      points 0..255.  Character classes ([str.isspace], [str.lower], the
      regular expression classes) are the Python ones restricted to that
      range.
    - A Python [int] is a [Z].
    - A [dict] whose iteration order matters is an association list in
      insertion order; a [set] is a [gset]; a dict used as a map is a [gmap].
    - A raised exception is the [Raise] constructor of [result].
    - The regular expressions of the source are values of [Re.regex], an
      abstract syntax of the fragment of Python's [re] the source uses,
      executed by a backtracking matcher with Python's priorities (greedy
      and lazy repetition, ordered alternation, leftmost match). *)

From Stdlib Require Import List Ascii String ZArith Lia Bool Arith.
From stdpp Require Import base option list gmap strings.
Import ListNotations.

#[local] Open Scope string_scope.
#[local] Open Scope list_scope.
#[local] Open Scope Z_scope.
#[local] Open Scope nat_scope.

(** A Python string. String literals are read as [str] through the coercion. *)
Definition str : Type := list ascii.

Coercion list_ascii_of_string : string >-> list.

(** A tuple of string literals. *)
Definition strs (l : list string) : list str := map list_ascii_of_string l.

(** ** Python primitives *)
Module Py.

(** The exceptions the code can raise.  [OutOfFuel] is not one of Python's:
    it is the answer of a recursive function of the model whose budget of
    nested calls is used up. *)
Inductive exn : Type :=
| IndexError
| ValueError (msg : str)
| RuntimeError (msg : str)
| OSError (path : str)
| OutOfFuel.

Inductive result (A : Type) : Type :=
| Ok (a : A)
| Raise (e : exn).
Arguments Ok {A} a.
Arguments Raise {A} e.

Definition bind {A B} (r : result A) (f : A -> result B) : result B :=
  match r with
  | Ok a => f a
  | Raise e => Raise e
  end.

Definition code (c : ascii) : nat := nat_of_ascii c.

Definition NL : ascii := ascii_of_nat 10.
Definition CR : ascii := ascii_of_nat 13.
Definition TAB : ascii := ascii_of_nat 9.
Definition DQUOTE : ascii := ascii_of_nat 34.
Definition BSLASH : ascii := ascii_of_nat 92.

Definition ch_eqb (a b : ascii) : bool := Ascii.eqb a b.

(** [a <= c <= b] on code points. *)
Definition in_range (a b c : ascii) : bool :=
  (code a <=? code c) && (code c <=? code b).

(** [c in chars]. *)
Definition one_of (chars : str) (c : ascii) : bool :=
  existsb (ch_eqb c) chars.

(** [str.isspace] for one character (also the class [\s] of [re]). *)
Definition isspace (c : ascii) : bool :=
  let n := code c in
  ((9 <=? n) && (n <=? 13)) || ((28 <=? n) && (n <=? 32))
  || (n =? 133) || (n =? 160).

(** [str.lower] for one character. *)
Definition lower_char (c : ascii) : ascii :=
  let n := code c in
  if ((65 <=? n) && (n <=? 90))
     || ((192 <=? n) && (n <=? 222) && negb (n =? 215))
  then ascii_of_nat (n + 32) else c.

Definition lower (s : str) : str := map lower_char s.

(** The class [\w] of [re]: alphanumeric characters and the underscore. *)
Definition isword (c : ascii) : bool :=
  let n := code c in
  ((48 <=? n) && (n <=? 57)) || ((65 <=? n) && (n <=? 90))
  || ((97 <=? n) && (n <=? 122)) || (n =? 95)
  || (n =? 170) || (n =? 178) || (n =? 179) || (n =? 181)
  || (n =? 185) || (n =? 186) || ((188 <=? n) && (n <=? 190))
  || ((192 <=? n) && (n <=? 255) && negb (n =? 215) && negb (n =? 247)).

Fixpoint str_eqb (a b : str) : bool :=
  match a, b with
  | [], [] => true
  | x :: a', y :: b' => ch_eqb x y && str_eqb a' b'
  | _, _ => false
  end.

(** [s.startswith(p)]. *)
Fixpoint startswith (p s : str) : bool :=
  match p, s with
  | [], _ => true
  | x :: p', y :: s' => ch_eqb x y && startswith p' s'
  | _ :: _, [] => false
  end.

(** [s.endswith(p)]. *)
Definition endswith (p s : str) : bool := startswith (rev p) (rev s).

(** [sub in s]. *)
Fixpoint contains (sub s : str) : bool :=
  startswith sub s ||
  match s with
  | [] => false
  | _ :: s' => contains sub s'
  end.

Fixpoint dropwhile (p : ascii -> bool) (s : str) : str :=
  match s with
  | [] => []
  | c :: s' => if p c then dropwhile p s' else s
  end.

Definition lstrip_with (p : ascii -> bool) (s : str) : str := dropwhile p s.
Definition rstrip_with (p : ascii -> bool) (s : str) : str :=
  rev (dropwhile p (rev s)).

(** [s.strip()]. *)
Definition strip (s : str) : str := rstrip_with isspace (lstrip_with isspace s).

(** [s.strip(chars)]. *)
Definition strip_chars (chars s : str) : str :=
  rstrip_with (one_of chars) (lstrip_with (one_of chars) s).

(** [sep.join(parts)]. *)
Fixpoint join (sep : str) (parts : list str) : str :=
  match parts with
  | [] => []
  | [p] => p
  | p :: ps => p ++ sep ++ join sep ps
  end.

(** The line boundaries of [str.splitlines]. *)
Definition islinebreak (c : ascii) : bool :=
  let n := code c in
  ((10 <=? n) && (n <=? 13)) || ((28 <=? n) && (n <=? 30)) || (n =? 133).

Fixpoint splitlines_from (cur : str) (s : str) : list str :=
  match s with
  | [] => match cur with [] => [] | _ => [rev cur] end
  | c :: s' =>
      if ch_eqb c CR then
        match s' with
        | d :: s'' =>
            if ch_eqb d NL then rev cur :: splitlines_from [] s''
            else rev cur :: splitlines_from [] s'
        | [] => rev cur :: splitlines_from [] s'
        end
      else if islinebreak c then rev cur :: splitlines_from [] s'
      else splitlines_from (c :: cur) s'
  end.

(** [s.splitlines()]. *)
Definition splitlines (s : str) : list str := splitlines_from [] s.

(** [s.partition(sep)] for a one-character separator: the text before the
    first separator and the text after it ([None] when there is none). *)
Fixpoint partition_at (sep : ascii) (s : str) : option (str * str) :=
  match s with
  | [] => None
  | c :: s' =>
      if ch_eqb c sep then Some ([], s')
      else match partition_at sep s' with
           | Some (a, b) => Some (c :: a, b)
           | None => None
           end
  end.

(** [s[a:b]] for [0 <= a, b]. *)
Definition slice (s : str) (a b : nat) : str := firstn (b - a) (skipn a s).

(** [replace(old, new)] for a one-character [old]. *)
Definition replace_char (old : ascii) (new : str) (s : str) : str :=
  flat_map (fun c => if ch_eqb c old then new else [c]) s.

(** Truthiness of a string: [bool(s)]. *)
Definition truthy (s : str) : bool := match s with [] => false | _ => true end.

(** [a or b] on strings. *)
Definition or_else (a b : str) : str := if truthy a then a else b.

(** The text of a Python string literal with its escapes decoded: newline,
    tab, carriage return, backslash and the two quotes. *)
Fixpoint unescape (s : str) : str :=
  match s with
  | [] => []
  | c :: s' =>
      if ch_eqb c BSLASH then
        match s' with
        | d :: s'' =>
            if ch_eqb d "n"%char then NL :: unescape s''
            else if ch_eqb d "t"%char then TAB :: unescape s''
            else if ch_eqb d "r"%char then CR :: unescape s''
            else if ch_eqb d BSLASH then BSLASH :: unescape s''
            else if ch_eqb d "'"%char then d :: unescape s''
            else if ch_eqb d DQUOTE then d :: unescape s''
            else c :: unescape s'
        | [] => [c]
        end
      else c :: unescape s'
  end.

(** Decimal rendering of an integer, as an f-string does. *)
Fixpoint digits_of (fuel : nat) (n : nat) (acc : str) : str :=
  match fuel with
  | O => acc
  | S f =>
      let d := ascii_of_nat (48 + n mod 10) in
      if n <? 10 then d :: acc else digits_of f (n / 10) (d :: acc)
  end.

Definition str_of_Z (z : Z) : str :=
  match z with
  | Z0 => "0"
  | Zpos p => digits_of (Pos.to_nat p) (Pos.to_nat p) []
  | Zneg p => "-" ++ digits_of (Pos.to_nat p) (Pos.to_nat p) []
  end.

End Py.

(** ** The fragment of Python's [re] used by the source *)
Module Re.
Import Py.

(** Abstract syntax. [Repeat greedy lo hi r] is [r{lo,hi}] ([hi = None] for
    no upper bound), lazy when [greedy] is false; [Group n r] is the [n]-th
    capturing group; [Bol m] and [Eol m] are [^] and [$], with the
    MULTILINE flag [m]; [NotBehind p] is a negative look-behind on one
    character, [NotAhead r] a negative look-ahead; [WordB] is [\b]. *)
Inductive regex : Type :=
| Eps
| Chr (p : ascii -> bool)
| Seq (r1 r2 : regex)
| Alt (r1 r2 : regex)
| Repeat (greedy : bool) (lo : nat) (hi : option nat) (r : regex)
| Group (n : nat) (r : regex)
| Bol (multiline : bool)
| Eol (multiline : bool)
| NotBehind (p : ascii -> bool)
| NotAhead (r : regex)
| WordB.

(** Concatenation and ordered alternation of several expressions. *)
Fixpoint cat (rs : list regex) : regex :=
  match rs with
  | [] => Eps
  | [r] => r
  | r :: rs' => Seq r (cat rs')
  end.

Fixpoint alt (rs : list regex) : regex :=
  match rs with
  | [] => Chr (fun _ => false)
  | [r] => r
  | r :: rs' => Alt r (alt rs')
  end.

(** The usual abbreviations. *)
Definition star (r : regex) : regex := Repeat true 0 None r.
Definition plus (r : regex) : regex := Repeat true 1 None r.
Definition opt (r : regex) : regex := Repeat true 0 (Some 1) r.
Definition star_lazy (r : regex) : regex := Repeat false 0 None r.
Definition plus_lazy (r : regex) : regex := Repeat false 1 None r.

(** One literal character; with IGNORECASE the comparison is on the
    lower-cased characters. *)
Definition chr (icase : bool) (c : ascii) : regex :=
  Chr (fun x => if icase then ch_eqb (lower_char x) (lower_char c) else ch_eqb x c).

(** A literal string (what [re.escape] protects). *)
Fixpoint lit_of (icase : bool) (s : str) : regex :=
  match s with
  | [] => Eps
  | [c] => chr icase c
  | c :: s' => Seq (chr icase c) (lit_of icase s')
  end.

Definition lit (s : str) : regex := lit_of false s.
Definition lit_i (s : str) : regex := lit_of true s.

(** [.] without and with DOTALL, [\s], [[chars]] and [[^chars]]. *)
Definition dot : regex := Chr (fun c => negb (ch_eqb c NL)).
Definition dot_all : regex := Chr (fun _ => true).
Definition ws : regex := Chr isspace.
Definition cls (chars : str) : regex := Chr (one_of chars).
Definition ncls (chars : str) : regex := Chr (fun c => negb (one_of chars c)).

(** A position of the matcher in the text: the offset, the character before
    it, the text from it on, and the groups captured so far. *)
Record state : Type := State {
  pos : nat;
  prev : option ascii;
  rest : str;
  caps : gmap nat (nat * nat)
}.

Definition advance (c : ascii) (s' : str) (st : state) : state :=
  State (S (pos st)) (Some c) s' (caps st).

Definition set_cap (n : nat) (a b : nat) (st : state) : state :=
  State (pos st) (prev st) (rest st) (<[n := (a, b)]> (caps st)).

Definition at_bol (multiline : bool) (st : state) : bool :=
  match prev st with
  | None => true
  | Some c => multiline && ch_eqb c NL
  end.

Definition at_eol (multiline : bool) (st : state) : bool :=
  match rest st with
  | [] => true
  | c :: s' =>
      ch_eqb c NL && (multiline || match s' with [] => true | _ => false end)
  end.

Definition opt_word (c : option ascii) : bool :=
  match c with Some x => isword x | None => false end.

Definition at_word_boundary (st : state) : bool :=
  xorb (opt_word (prev st)) (opt_word (head (rest st))).

Definition below (count : nat) (hi : option nat) : bool :=
  match hi with Some h => count <? h | None => true end.

Definition orelse {A} (a b : option A) : option A :=
  match a with Some _ => a | None => b end.

(** The iterations of [r{lo,hi}], [body] being the matcher of [r]: after
    [count] iterations, either one more (when [count] is below [hi]) or the
    continuation (when [count] has reached [lo]), the first of the two
    being the one the repetition prefers.  An iteration has to consume a
    character (no pattern of the source repeats an expression that matches
    the empty string), so [fuel], the length of the remaining text, bounds
    the number of iterations. *)
Fixpoint repeat_loop (body : state -> (state -> option state) -> option state)
  (greedy : bool) (lo : nat) (hi : option nat) (k : state -> option state)
  (fuel count : nat) (st : state) {struct fuel} : option state :=
  let stop := if lo <=? count then k st else None in
  match fuel with
  | O => stop
  | S fuel' =>
      let more :=
        if below count hi then
          body st (fun st1 =>
            if pos st1 =? pos st then None
            else repeat_loop body greedy lo hi k fuel' (S count) st1)
        else None in
      if greedy then orelse more stop else orelse stop more
  end.

(** The backtracking matcher, in continuation-passing style: [run r st k]
    tries the ways [r] matches at [st], in Python's order of preference, and
    returns the first for which the continuation [k] succeeds. *)
Fixpoint run (r : regex) (st : state) (k : state -> option state)
  {struct r} : option state :=
  match r with
  | Eps => k st
  | Chr p =>
      match rest st with
      | c :: s' => if p c then k (advance c s' st) else None
      | [] => None
      end
  | Seq r1 r2 => run r1 st (fun st1 => run r2 st1 k)
  | Alt r1 r2 => orelse (run r1 st k) (run r2 st k)
  | Repeat greedy lo hi r1 =>
      repeat_loop (run r1) greedy lo hi k (length (rest st)) O st
  | Group n r1 =>
      run r1 st (fun st1 => k (set_cap n (pos st) (pos st1) st1))
  | Bol m => if at_bol m st then k st else None
  | Eol m => if at_eol m st then k st else None
  | NotBehind p =>
      match prev st with
      | Some c => if p c then None else k st
      | None => k st
      end
  | NotAhead r1 =>
      match run r1 st Some with
      | Some _ => None
      | None => k st
      end
  | WordB => if at_word_boundary st then k st else None
  end.

(** A match object: its span and its groups. *)
Record Match : Type := MkMatch {
  m_start : nat;
  m_end : nat;
  m_caps : gmap nat (nat * nat)
}.

Definition state_at (text : str) (p : nat) : state :=
  State p (match p with O => None | S q => nth_error text q end)
        (skipn p text) ∅.

(** The match of [r] that starts at offset [p], if any. *)
Definition match_at (r : regex) (text : str) (p : nat) : option Match :=
  match run r (state_at text p) Some with
  | Some st => Some (MkMatch p (pos st) (caps st))
  | None => None
  end.

Fixpoint search_loop (fuel : nat) (r : regex) (text : str) (p : nat)
  : option Match :=
  match match_at r text p with
  | Some m => Some m
  | None =>
      match fuel with
      | O => None
      | S fuel' => search_loop fuel' r text (S p)
      end
  end.

(** [re.search]: the leftmost match starting at or after [p]. *)
Definition search (r : regex) (text : str) (p : nat) : option Match :=
  if length text <? p then None
  else search_loop (length text - p) r text p.

(** [m.group(n)]; a group that took no part in the match gives the empty
    string (in the patterns of the source every group takes part in every
    match). *)
Definition group (text : str) (m : Match) (n : nat) : str :=
  match m_caps m !! n with
  | Some (a, b) => slice text a b
  | None => []
  end.

Fixpoint finditer_loop (fuel : nat) (r : regex) (text : str) (p : nat)
  : list Match :=
  match fuel with
  | O => []
  | S fuel' =>
      match search r text p with
      | None => []
      | Some m =>
          m :: finditer_loop fuel' r text
                 (if m_end m =? m_start m then S (m_end m) else m_end m)
      end
  end.

(** [re.finditer]: the successive non-overlapping matches, left to right.
    The search resumes where the last match ended (one character further
    after an empty match, which no pattern of the source can produce). *)
Definition finditer (r : regex) (text : str) : list Match :=
  finditer_loop (S (length text)) r text 0.

Fixpoint sub_loop (repl : Match -> str) (text : str) (cur : nat)
  (ms : list Match) : str :=
  match ms with
  | [] => skipn cur text
  | m :: ms' =>
      slice text cur (m_start m) ++ repl m ++ sub_loop repl text (m_end m) ms'
  end.

(** [re.sub] with a replacement function. *)
Definition sub (r : regex) (repl : Match -> str) (text : str) : str :=
  sub_loop repl text 0 (finditer r text).

Fixpoint split_loop (ngroups : nat) (text : str) (cur : nat)
  (ms : list Match) : list str :=
  match ms with
  | [] => [skipn cur text]
  | m :: ms' =>
      slice text cur (m_start m)
      :: map (group text m) (seq 1 ngroups)
      ++ split_loop ngroups text (m_end m) ms'
  end.

(** [re.split] for a pattern with [ngroups] capturing groups: the text
    between the matches, with the groups of each match in between. *)
Definition split (ngroups : nat) (r : regex) (text : str) : list str :=
  split_loop ngroups text 0 (finditer r text).

End Re.

(** ** The parsed document (the dict both parsers return) *)
Module Doc.

Record Section : Type := MkSection {
  heading : str;
  level : Z;
  text : str;
  category : str
}.

Record Figure : Type := MkFigure {
  caption : str;
  path : str
}.

Record Parsed : Type := MkParsed {
  title : str;
  abstract : str;
  authors : str;
  sections : list Section;
  figures : list Figure;
  tables : list str;
  equations : list str
}.

Definition set_title (v : str) (d : Parsed) : Parsed :=
  MkParsed v (abstract d) (authors d) (sections d) (figures d) (tables d)
           (equations d).
Definition set_abstract (v : str) (d : Parsed) : Parsed :=
  MkParsed (title d) v (authors d) (sections d) (figures d) (tables d)
           (equations d).
Definition set_authors (v : str) (d : Parsed) : Parsed :=
  MkParsed (title d) (abstract d) v (sections d) (figures d) (tables d)
           (equations d).
Definition add_section (s : Section) (d : Parsed) : Parsed :=
  MkParsed (title d) (abstract d) (authors d) (sections d ++ [s]) (figures d)
           (tables d) (equations d).
Definition add_figure (f : Figure) (d : Parsed) : Parsed :=
  MkParsed (title d) (abstract d) (authors d) (sections d) (figures d ++ [f])
           (tables d) (equations d).
Definition add_table (t : str) (d : Parsed) : Parsed :=
  MkParsed (title d) (abstract d) (authors d) (sections d) (figures d)
           (tables d ++ [t]) (equations d).
Definition add_equation (e : str) (d : Parsed) : Parsed :=
  MkParsed (title d) (abstract d) (authors d) (sections d) (figures d)
           (tables d) (equations d ++ [e]).
Definition set_equations (v : list str) (d : Parsed) : Parsed :=
  MkParsed (title d) (abstract d) (authors d) (sections d) (figures d)
           (tables d) v.

(** The dict both parsers start from. *)
Definition empty : Parsed := MkParsed [] [] [] [] [] [] [].

End Doc.

(** ** [md_parser.py] *)
Module MdParser.
Import Py Re Doc.

(** [any(k in h for k in keys)]. *)
Definition any_in (keys : list str) (h : str) : bool :=
  existsb (fun k => contains k h) keys.

Definition motivation_keys : list str :=
  strs ["introduction"; "background"; "related work"; "related"; "prior"].
Definition solution_keys : list str :=
  strs ["method"; "approach"; "model"; "architecture"; "system"; "proposed";
   "framework"].
Definition results_keys : list str :=
  strs ["result"; "experiment"; "evaluation"; "performance"; "benchmark";
   "analysis"].
Definition contributions_keys : list str :=
  strs ["conclusion"; "contribution"; "summary"; "discussion"; "future"].

Definition _classify_section (heading : str) : str :=
  let h := lower heading in
  if contains "abstract" h then "abstract"
  else if any_in motivation_keys h then "motivation"
  else if any_in solution_keys h then "solution"
  else if any_in results_keys h then "results"
  else if any_in contributions_keys h then "contributions"
  else "paper_info".

(** [^---\s*\n(.*?)\n---\s*\n] with DOTALL. *)
Definition fm_re : regex :=
  cat [Bol false; lit "---"; star ws; chr false NL;
       Group 1 (star_lazy dot_all);
       chr false NL; lit "---"; star ws; chr false NL].

(** [\$\$(.+?)\$\$] with DOTALL. *)
Definition _block_eq_re : regex :=
  cat [lit "$$"; Group 1 (plus_lazy dot_all); lit "$$"].

(** [(?<!\$)\$(?!\$)([^$\n]{2,}?)(?<!\$)\$(?!\$)]. *)
Definition _inline_eq_re : regex :=
  cat [NotBehind (ch_eqb "$"%char); lit "$"; NotAhead (lit "$");
       Group 1 (Repeat false 2 None (ncls ["$"%char; NL]));
       NotBehind (ch_eqb "$"%char); lit "$"; NotAhead (lit "$")].

(** The image syntax [![caption](path)]: group 1 is any run of characters
    other than a closing bracket, group 2 any run other than a closing
    parenthesis. *)
Definition figure_re : regex :=
  cat [lit "!["; Group 1 (star (ncls "]")); lit "]("; Group 2 (star (ncls ")"));
       lit ")"].

(** [\|[-:]+\|]. *)
Definition table_sep_re : regex :=
  cat [lit "|"; plus (cls "-:"); lit "|"].

(** [^(#{1,6})\s+(.+?)[ \t]*$] with MULTILINE. *)
Definition _heading_re : regex :=
  cat [Bol true; Group 1 (Repeat true 1 (Some 6) (lit "#")); plus ws;
       Group 2 (plus_lazy dot); star (cls [" "%char; TAB]); Eol true].

(** [[A-Z][a-z]+]. *)
Definition name_re : regex :=
  cat [Chr (in_range "A"%char "Z"%char); plus (Chr (in_range "a"%char "z"%char))].

(** Step 1: the lines [key: value] of the front matter, later lines
    overriding earlier ones. *)
Definition frontmatter_of (block : str) : gmap str str :=
  fold_left
    (fun fm line =>
       if contains ":" line then
         match partition_at ":"%char line with
         | Some (k, v) => <[lower (strip k) := strip v]> fm
         | None => fm
         end
       else fm)
    (splitlines block) ∅.

(** Steps 2 and 3: [eq = m.group(1).strip(); if eq: append]. *)
Definition collect_equations (r : regex) (text : str) (d : Parsed) : Parsed :=
  fold_left
    (fun d m =>
       let eq := strip (group text m 1) in
       if truthy eq then add_equation eq d else d)
    (finditer r text) d.

(** Step 4. *)
Definition collect_figures (text : str) (d : Parsed) : Parsed :=
  fold_left
    (fun d m =>
       add_figure (MkFigure (strip (group text m 1)) (strip (group text m 2))) d)
    (finditer figure_re text) d.

(** Step 5, the loop over the lines: the run of pipe lines being collected
    and the tables kept so far. *)
Fixpoint tables_loop (lines : list str) (table_buf : list str)
  (tables : list str) : list str * list str :=
  match lines with
  | [] => (table_buf, tables)
  | line :: lines' =>
      let stripped := strip line in
      if contains "|" stripped then
        tables_loop lines' (table_buf ++ [line]) tables
      else
        match table_buf with
        | [] => tables_loop lines' table_buf tables
        | _ =>
            let raw := join [NL] table_buf in
            let tables' :=
              if (2 <=? length table_buf)
                 || bool_decide (is_Some (search table_sep_re raw 0))
              then tables ++ [raw] else tables in
            tables_loop lines' [] tables'
        end
  end.

(** Step 5, with the flush of the last run after the loop. *)
Definition collect_tables (text : str) : list str :=
  let '(table_buf, tables) := tables_loop (splitlines text) [] [] in
  match table_buf with
  | [] => tables
  | _ => tables ++ [join [NL] table_buf]
  end.

(** Step 6, the loop [for i in range(1, len(parts), 3)] over [parts[1:]]. *)
Fixpoint sections_loop (d : Parsed) (ps : list str) {struct ps}
  : result Parsed :=
  match ps with
  | [] => Ok d
  | [_] => Raise IndexError
  | level_str :: heading0 :: more =>
      let heading := strip heading0 in
      let body := match more with b :: _ => strip b | [] => [] end in
      let level := Z.of_nat (length level_str) in
      let d1 :=
        if (level =? 1)%Z && negb (truthy (title d))
        then set_title heading d else d in
      let category := _classify_section heading in
      let d2 := add_section (MkSection heading level body category) d1 in
      let d3 :=
        if str_eqb category "abstract" && negb (truthy (abstract d2))
        then set_abstract body d2 else d2 in
      match more with
      | _ :: ps' => sections_loop d3 ps'
      | [] => Ok d3
      end
  end.

(** Step 7: the author line looked for in the text before the first
    heading. *)
Definition guess_authors (parts : list str) (d : Parsed) : Parsed :=
  if truthy (authors d) then d
  else
    let preamble := match parts with p :: _ => p | [] => [] end in
    let lines :=
      map strip (List.filter (fun ln => truthy (strip ln)) (splitlines preamble)) in
    let non_heading := List.filter (fun ln => negb (startswith "#" ln)) lines in
    match non_heading with
    | [] => d
    | candidate :: _ =>
        if (length candidate <? 200)
           && (contains "," candidate
               || contains " and " (lower candidate)
               || bool_decide (is_Some (match_at name_re candidate 0)))
        then set_authors candidate d else d
    end.

(** The body of [parse_markdown], from the text of the file on. *)
Definition parse_markdown_text (text0 : str) : result Parsed :=
  let '(frontmatter, text) :=
    match match_at fm_re text0 0 with
    | Some m => (frontmatter_of (group text0 m 1), skipn (m_end m) text0)
    | None => (∅, text0)
    end in
  let d := Doc.empty in
  let d :=
    match frontmatter !! ("title" : str) with
    | Some v => set_title (strip_chars [DQUOTE; "'"%char] v) d
    | None => d
    end in
  let d :=
    match frontmatter !! ("author" : str) with
    | Some v => set_authors v d
    | None => d
    end in
  let d :=
    match frontmatter !! ("authors" : str) with
    | Some v => set_authors v d
    | None => d
    end in
  let d := collect_equations _block_eq_re text d in
  let text_no_block := sub _block_eq_re (fun _ => "[EQUATION]") text in
  let d := collect_equations _inline_eq_re text_no_block d in
  let d := collect_figures text d in
  let d := fold_left (fun d t => add_table t d) (collect_tables text) d in
  let parts := split 2 _heading_re text in
  bind (sections_loop d (tail parts)) (fun d =>
  Ok (guess_authors parts d)).

(** [parse_markdown(path)]: the file is read through [read_text], which
    raises when the file cannot be read. *)
Definition parse_markdown (read_text : str -> result str) (path : str)
  : result Parsed :=
  bind (read_text path) parse_markdown_text.

End MdParser.

(** ** The file system, as the parsers see it *)
Module Fs.
Import Py.

(** What the code asks of [pathlib] and of the files.  [read_text p] is the
    decoded text of the file, or the exception raised when it cannot be
    read; [join a b] is [str(Path(a) / b)]; [parent], [name], [stem] and
    [suffix] are the attributes of [Path(p)]; [rglob_tex z d] is the result
    of extracting the archive [z] into [d] and listing [d.rglob("*.tex")]:
    [None] when the archive is corrupt ([zipfile.BadZipFile]). *)
Record Env : Type := MkEnv {
  read_text : str -> result str;
  exists_ : str -> bool;
  join : str -> str -> str;
  parent : str -> str;
  name : str -> str;
  stem : str -> str;
  suffix : str -> str;
  rglob_tex : str -> str -> option (list str)
}.

End Fs.

(** ** [tex_parser.py] *)
Module TexParser.
Import Py Re Doc.

(** The two attempts (UTF-8, then latin-1, both with [errors="replace"])
    fail for the same reasons, those of the file system; the text is then
    empty. *)
Definition _read_file (E : Fs.Env) (path : str) : str :=
  match Fs.read_text E path with
  | Ok s => s
  | Raise _ => []
  end.

(** [text[i]] for a Python index, negative indices counting from the end. *)
Definition index (text : str) (i : Z) : result ascii :=
  let n := Z.of_nat (length text) in
  let j := if (i <? 0)%Z then (n + i)%Z else i in
  if (j <? 0)%Z then Raise IndexError
  else match nth_error text (Z.to_nat j) with
       | Some c => Ok c
       | None => Raise IndexError
       end.

(** The loop of [_extract_braced]: [while i < len(text)]. *)
Fixpoint extract_loop (fuel : nat) (text : str) (i depth : Z) (buf : str)
  : result str :=
  match fuel with
  | O => Ok buf
  | S fuel' =>
      if (i <? Z.of_nat (length text))%Z then
        bind (index text i) (fun ch =>
        if ch_eqb ch "{" then
          extract_loop fuel' text (i + 1)%Z (depth + 1)%Z
                       (if (depth >? 0)%Z then buf ++ [ch] else buf)
        else if ch_eqb ch "}" then
          let depth := (depth - 1)%Z in
          if (depth =? 0)%Z then Ok buf
          else extract_loop fuel' text (i + 1)%Z depth (buf ++ [ch])
        else
          extract_loop fuel' text (i + 1)%Z depth
                       (if (depth >? 0)%Z then buf ++ [ch] else buf))
      else Ok buf
  end.

(** [_extract_braced(text, start)]; the loop runs at most
    [len(text) - start] times. *)
Definition _extract_braced (text : str) (start : Z) : result str :=
  extract_loop (Z.to_nat (Z.of_nat (length text) - start)) text start 0%Z [].

Definition formatting_names : list str :=
  strs ["textbf"; "textit"; "texttt"; "emph"; "underline"; "textsc"; "textrm";
        "textsf"; "textsl"; "mbox"; "hbox"; "vbox"; "text"; "mathrm";
        "mathbf"; "mathit"; "mathsf"; "mathtt"; "mathbb"; "mathcal";
        "mathfrak"].

(** [(?m)%.*$]. *)
Definition comment_re : regex := cat [lit "%"; star dot; Eol true].

(** [\\(?:textbf|...|mathfrak)\{(G)\}], the group [G] being [[^{}]*]. *)
Definition formatting : regex :=
  cat [lit "\"; alt (map lit formatting_names); lit "{";
       Group 1 (star (ncls "{}")); lit "}"].

(** [[a-zA-Z@]]. *)
Definition letter_at (c : ascii) : bool :=
  in_range "a" "z" c || in_range "A" "Z" c || ch_eqb c "@".

(** [\\[a-zA-Z@]+\{(G)\}], the group [G] being [[^{}]*]. *)
Definition command_re : regex :=
  cat [lit "\"; plus (Chr letter_at); lit "{"; Group 1 (star (ncls "{}"));
       lit "}"].

(** The bare command: a backslash, [[a-zA-Z@]+], an optional star, any
    number of bracketed option lists (each without a closing bracket
    inside) and the white space that follows. *)
Definition bare_command_re : regex :=
  cat [lit "\"; plus (Chr letter_at); opt (lit "*");
       star (cat [lit "["; star (ncls "]"); lit "]"]); star ws].

(** [\n{3,}] and [[ \t]+]. *)
Definition newlines_re : regex := Repeat true 3 None (chr false NL).
Definition blanks_re : regex := plus (cls [" "%char; TAB]).

(** [re.sub(pattern, r"\1", text)]. *)
Definition sub_group1 (r : regex) (text : str) : str :=
  sub r (fun m => group text m 1) text.

(** [re.sub(pattern, repl, text)] for a literal [repl]. *)
Definition sub_const (r : regex) (repl : str) (text : str) : str :=
  sub r (fun _ => repl) text.

Definition _strip_commands (text : str) : str :=
  let text := sub_const comment_re [] text in
  let text := Nat.iter 5 (sub_group1 formatting) text in
  let text := Nat.iter 5 (sub_group1 command_re) text in
  let text := sub_const bare_command_re [] text in
  let text := replace_char "}" [] (replace_char "{" [] text) in
  let text := sub_const newlines_re [NL; NL] text in
  let text := sub_const blanks_re " " text in
  strip text.

(** [\\(?:input|include)\{([^}]+)\}]. *)
Definition include_re : regex :=
  cat [lit "\"; alt [lit "input"; lit "include"]; lit "{";
       Group 1 (plus (ncls "}")); lit "}"].

Definition with_tex (ref : str) : str :=
  if endswith ".tex" ref then ref else ref ++ ".tex".

(** [re.sub(include_re, replacer, text)] for a [replacer] that may fail. *)
Fixpoint sub_includes (replacer : Match -> result str) (text : str)
  (cur : nat) (ms : list Match) : result str :=
  match ms with
  | [] => Ok (skipn cur text)
  | m :: ms' =>
      bind (replacer m) (fun r =>
      bind (sub_includes replacer text (m_end m) ms') (fun tl =>
      Ok (slice text cur (m_start m) ++ r ++ tl)))
  end.

(** [_inline_includes(text, base_dir, depth)].  The recursion of the source
    is on [depth], which grows by one at each nested call and stops the
    expansion beyond 5; here [fuel] decreases by one at each nested call. *)
Fixpoint inline_includes_fuel (fuel : nat) (E : Fs.Env) (text base_dir : str)
  (depth : Z) : result str :=
  match fuel with
  | O => Raise OutOfFuel
  | S fuel' =>
      if (depth >? 5)%Z then Ok text
      else
        let replacer (m : Match) : result str :=
          let ref := with_tex (strip (group text m 1)) in
          let sub_path := Fs.join E base_dir ref in
          if Fs.exists_ E sub_path then
            let sub_text := _read_file E sub_path in
            inline_includes_fuel fuel' E sub_text (Fs.parent E sub_path)
                                 (depth + 1)%Z
          else
            let sub_path2 := Fs.join E base_dir (Fs.name E ref) in
            if Fs.exists_ E sub_path2 then
              let sub_text := _read_file E sub_path2 in
              inline_includes_fuel fuel' E sub_text (Fs.parent E sub_path2)
                                   (depth + 1)%Z
            else Ok [] in
        sub_includes replacer text 0 (finditer include_re text)
  end.

(** A call at a depth above 5 returns at once and a call at [depth <= 5]
    nests calls at the depths up to 6: [1 + (6 - depth)] calls at most. *)
Definition _inline_includes (E : Fs.Env) (text base_dir : str) (depth : Z)
  : result str :=
  inline_includes_fuel (S (Z.to_nat (6 - depth))) E text base_dir depth.

(** [any(k in h for k in keys)]. *)
Definition any_in (keys : list str) (h : str) : bool :=
  existsb (fun k => contains k h) keys.

Definition motivation_keys : list str :=
  strs ["introduction"; "background"; "related work"; "related"; "motivation";
        "prior work"].
Definition solution_keys : list str :=
  strs ["method"; "approach"; "model"; "architecture"; "system"; "proposed";
        "framework"; "design"].
Definition results_keys : list str :=
  strs ["result"; "experiment"; "evaluation"; "performance"; "benchmark";
        "analysis"; "ablation"].
Definition contributions_keys : list str :=
  strs ["conclusion"; "contribution"; "summary"; "discussion"; "future"].

Definition _classify_section (heading : str) : str :=
  let h := lower heading in
  if contains "abstract" h then "abstract"
  else if any_in motivation_keys h then "motivation"
  else if any_in solution_keys h then "solution"
  else if any_in results_keys h then "results"
  else if any_in contributions_keys h then "contributions"
  else "paper_info".

(** [\\begin\{NAME\}(.*?)\\end\{NAME\}] with DOTALL and IGNORECASE. *)
Definition env_re (env_name : str) : regex :=
  cat [lit_i "\begin{"; lit_i env_name; lit_i "}";
       Group 1 (star_lazy dot_all);
       lit_i "\end{"; lit_i env_name; lit_i "}"].

Definition _extract_env (text env_name : str) : list str :=
  map (fun m => group text m 1) (finditer (env_re env_name) text).

(** [\\CMD\s*\{]. *)
Definition command_open_re (cmd : str) : regex :=
  cat [lit "\"; lit cmd; star ws; lit "{"].

Definition _extract_command_arg (text cmd : str) : result (option str) :=
  match search (command_open_re cmd) text 0 with
  | None => Ok None
  | Some m =>
      bind (_extract_braced text (Z.of_nat (m_end m) - 1)%Z) (fun s =>
      Ok (Some s))
  end.

(** [\\and\b] and [\\\\]. *)
Definition and_re : regex := cat [lit "\and"; WordB].
Definition linebreak_re : regex := lit "\\".

(** [\\(section|subsection|subsubsection)\*?\s*\{(G)\}] with IGNORECASE,
    the group [G] being [[^}]*]. *)
Definition _sec_re : regex :=
  cat [lit_i "\";
       Group 1 (alt [lit_i "section"; lit_i "subsection"; lit_i "subsubsection"]);
       opt (lit_i "*"); star ws; lit_i "{"; Group 2 (star (ncls "}"));
       lit_i "}"].

(** [_level_map.get(cmd, 1)]. *)
Definition _level_map_get (cmd : str) : Z :=
  if str_eqb cmd "section" then 1%Z
  else if str_eqb cmd "subsection" then 2%Z
  else if str_eqb cmd "subsubsection" then 3%Z
  else 1%Z.

Definition stripped_env_names : list str :=
  strs ["figure"; "table"; "tabular"; "equation"; "align"; "align*";
        "eqnarray"; "gather"; "gather*"].

(** [\\begin\{(?:NAMES)\}.*?\\end\{(?:NAMES)\}] with DOTALL, [NAMES] being
    the alternation of [stripped_env_names]. *)
Definition float_env_re : regex :=
  cat [lit "\begin{"; alt (map lit stripped_env_names); lit "}";
       star_lazy dot_all;
       lit "\end{"; alt (map lit stripped_env_names); lit "}"].

(** [\\caption\{]. *)
Definition caption_re : regex := lit "\caption{".

(** [\\includegraphics\s*(?:\[[^\]]*\])?\s*\{([^}]+)\}]. *)
Definition includegraphics_re : regex :=
  cat [lit "\includegraphics"; star ws;
       opt (cat [lit "["; star (ncls "]"); lit "]"]); star ws; lit "{";
       Group 1 (plus (ncls "}")); lit "}"].

(** [\\begin\{figure\}.*?\\end\{figure\}] with DOTALL and IGNORECASE. *)
Definition _fig_env_re : regex :=
  cat [lit_i "\begin{figure}"; star_lazy dot_all; lit_i "\end{figure}"].

(** [(?<!\$)\$(?!\$)([^$\n]{2,}?)(?<!\$)\$(?!\$)] and [\$\$(.+?)\$\$] with
    DOTALL. *)
Definition inline_eq_re : regex :=
  cat [NotBehind (ch_eqb "$"); lit "$"; NotAhead (lit "$");
       Group 1 (Repeat false 2 None (ncls ["$"%char; NL]));
       NotBehind (ch_eqb "$"); lit "$"; NotAhead (lit "$")].
Definition display_eq_re : regex :=
  cat [lit "$$"; Group 1 (plus_lazy dot_all); lit "$$"].

Definition equation_envs : list str :=
  strs ["equation"; "equation*"; "align"; "align*"; "eqnarray"; "gather";
        "gather*"; "multline"; "multline*"].

(** Step 4, the loop over [enumerate(sec_matches)]: [ms] is
    [sec_matches[idx:]]. *)
Fixpoint sections_loop (raw : str) (d : Parsed) (ms : list Match)
  {struct ms} : Parsed :=
  match ms with
  | [] => d
  | m :: ms' =>
      let cmd := lower (group raw m 1) in
      let heading := strip (_strip_commands (group raw m 2)) in
      let level := _level_map_get cmd in
      let body_start := m_end m in
      let body_end :=
        match ms' with
        | m' :: _ => m_start m'
        | [] => length raw
        end in
      let body_raw := slice raw body_start body_end in
      let body_clean := sub_const float_env_re [] body_raw in
      let text := strip (_strip_commands body_clean) in
      let category := _classify_section heading in
      let d := add_section (MkSection heading level text category) d in
      let d :=
        if str_eqb category "abstract" && negb (truthy (abstract d))
        then set_abstract text d else d in
      sections_loop raw d ms'
  end.

(** The caption of an environment: [_strip_commands] of the braced group
    after the first [\caption], when there is one. *)
Definition caption_of (env : str) : result (option str) :=
  match search caption_re env 0 with
  | None => Ok None
  | Some cap_m =>
      bind (_extract_braced env (Z.of_nat (m_end cap_m) - 1)%Z) (fun s =>
      Ok (Some (_strip_commands s)))
  end.

(** Step 5, first loop: the figures of one [figure] environment. *)
Definition figures_of_env (fig_env : str) (d : Parsed) : result Parsed :=
  bind (caption_of fig_env) (fun cap =>
  let caption := match cap with Some c => c | None => [] end in
  Ok (fold_left
        (fun d ig_m =>
           add_figure (MkFigure (strip caption) (strip (group fig_env ig_m 1))) d)
        (finditer includegraphics_re fig_env) d)).

(** A loop whose body may raise. *)
Fixpoint for_each {A} (f : A -> Parsed -> result Parsed) (d : Parsed)
  (l : list A) {struct l} : result Parsed :=
  match l with
  | [] => Ok d
  | x :: l' => bind (f x d) (fun d => for_each f d l')
  end.

(** Step 6, second loop: a [table] environment without a [tabular]. *)
Definition table_of_env (tbl_env : str) (d : Parsed) : result Parsed :=
  if contains "\begin{tabular}" tbl_env then Ok d
  else
    bind (caption_of tbl_env) (fun cap =>
    match cap with
    | Some c => Ok (add_table ("[Table: " ++ strip c ++ "]") d)
    | None => Ok d
    end).

(** Step 7: [eq = content.strip(); if eq: append]. *)
Definition add_stripped (d : Parsed) (content : str) : Parsed :=
  let eq := strip content in
  if truthy eq then add_equation eq d else d.

(** The deduplication loop: [seen] and [unique_eqs]. *)
Fixpoint dedup_loop (eqs : list str) (seen : gset str) (unique_eqs : list str)
  : list str :=
  match eqs with
  | [] => unique_eqs
  | eq :: eqs' =>
      if decide (eq ∉ seen)
      then dedup_loop eqs' ({[ eq ]} ∪ seen) (unique_eqs ++ [eq])
      else dedup_loop eqs' seen unique_eqs
  end.

Definition dedup (eqs : list str) : list str := dedup_loop eqs ∅ [].

(** The body of [parse_latex], from the text with its includes inlined. *)
Definition parse_latex_text (raw : str) : result Parsed :=
  let d := Doc.empty in
  bind (_extract_command_arg raw "title") (fun title_raw =>
  let d :=
    match title_raw with
    | Some t => if truthy t then set_title (strip (_strip_commands t)) d else d
    | None => d
    end in
  bind (_extract_command_arg raw "author") (fun author_raw =>
  let d :=
    match author_raw with
    | Some a =>
        if truthy a then
          let author_text := sub_const and_re ", " a in
          let author_text := sub_const linebreak_re " " author_text in
          set_authors (strip (_strip_commands author_text)) d
        else d
    | None => d
    end in
  let d :=
    match _extract_env raw "abstract" with
    | a :: _ => set_abstract (strip (_strip_commands a)) d
    | [] => d
    end in
  let d := sections_loop raw d (finditer _sec_re raw) in
  bind (for_each figures_of_env d (_extract_env raw "figure")) (fun d =>
  let raw_no_figs := sub_const _fig_env_re [] raw in
  let d :=
    fold_left
      (fun d ig_m => add_figure (MkFigure [] (strip (group raw_no_figs ig_m 1))) d)
      (finditer includegraphics_re raw_no_figs) d in
  let d :=
    fold_left (fun d tab_env => add_table (strip tab_env) d)
              (_extract_env raw "tabular") d in
  bind (for_each table_of_env d (_extract_env raw "table")) (fun d =>
  let d :=
    fold_left
      (fun d env => fold_left add_stripped (_extract_env raw env) d)
      equation_envs d in
  let d :=
    fold_left add_stripped
              (map (fun m => group raw m 1) (finditer inline_eq_re raw)) d in
  let d :=
    fold_left add_stripped
              (map (fun m => group raw m 1) (finditer display_eq_re raw)) d in
  Ok (set_equations (dedup (equations d)) d))))).

(** [parse_latex(path)]. *)
Definition parse_latex (E : Fs.Env) (path : str) : result Parsed :=
  let base_dir := Fs.parent E path in
  let raw := _read_file E path in
  bind (_inline_includes E raw base_dir 0%Z) parse_latex_text.

End TexParser.

(** ** [zip_handler.py] *)
Module ZipHandler.
Import Py Re.

(** [tf.read_text(encoding="utf-8", errors="ignore")], empty on failure. *)
Definition read_or_empty (E : Fs.Env) (tf : str) : str :=
  match Fs.read_text E tf with
  | Ok s => s
  | Raise _ => []
  end.

(** [contents]: the text of every file, in the order of [tex_files]. *)
Definition read_all (E : Fs.Env) (tex_files : list str) : list (str * str) :=
  map (fun tf => (tf, read_or_empty E tf)) tex_files.

(** The target of one directive: [group(1).strip()], with [.tex] added. *)
Definition included_of (content : str) (m : Match) : str :=
  TexParser.with_tex (strip (group content m 1)).

(** The test of the innermost loop: [tf] is another file than the reader
    and the directive names it, by file name or by path suffix. *)
Definition names_file (E : Fs.Env) (reader_path included tf : str) : bool :=
  negb (str_eqb tf reader_path)
  && (str_eqb (Fs.name E tf) (Fs.name E included)
      || endswith (replace_char BSLASH "/" included)
                  (replace_char BSLASH "/" tf)).

(** [inclusion_count[str(tf)] = inclusion_count.get(str(tf), 0) + 1]. *)
Definition bump (ic : gmap str Z) (tf : str) : gmap str Z :=
  <[tf := (default 0 (ic !! tf) + 1)%Z]> ic.

(** The three nested loops that count the inclusions. *)
Definition count_inclusions (E : Fs.Env) (tex_files : list str)
  (contents : list (str * str)) : gmap str Z :=
  fold_left
    (fun ic '(reader_path, content) =>
       fold_left
         (fun ic m =>
            let included := included_of content m in
            fold_left
              (fun ic tf =>
                 if names_file E reader_path included tf then bump ic tf
                 else ic)
              tex_files ic)
         (finditer TexParser.include_re content) ic)
    contents
    (fold_left (fun ic tf => <[tf := 0%Z]> ic) tex_files ∅).

(** The score of one file. *)
Definition score_of (inclusion_count : gmap str Z) (tex_path content : str)
  : Z :=
  let score := 0%Z in
  let score := if contains "\documentclass" content then (score + 100)%Z else score in
  let score := if contains "\begin{document}" content then (score + 50)%Z else score in
  (score - 10 * default 0 (inclusion_count !! tex_path))%Z.

(** [max(scores, key=...)] in the order of the dict: the first entry whose
    score no later entry exceeds. *)
Fixpoint max_from (best : str * Z) (l : list (str * Z)) : str * Z :=
  match l with
  | [] => best
  | x :: l' => max_from (if (snd best <? snd x)%Z then x else best) l'
  end.

(** The scoring pass over the files listed after the extraction. *)
Definition find_main (E : Fs.Env) (tex_files : list str) : option str :=
  let contents := read_all E tex_files in
  let inclusion_count := count_inclusions E tex_files contents in
  let scores :=
    map (fun '(tex_path, content) =>
           (tex_path, score_of inclusion_count tex_path content))
        contents in
  match scores with
  | [] => None
  | x :: l => Some (fst (max_from x l))
  end.

Definition extract_and_find_main (E : Fs.Env) (zip_path extract_dir : str)
  : result str :=
  match Fs.rglob_tex E zip_path extract_dir with
  | None => Raise (RuntimeError ("Bad ZIP file: " ++ zip_path))
  | Some tex_files =>
      match find_main E tex_files with
      | None =>
          Raise (ValueError ("No .tex files found in ZIP archive: "
                             ++ Fs.name E zip_path))
      | Some best => Ok best
      end
  end.

End ZipHandler.

(** ** [ingestor.py] *)
Module Ingestor.
Import Py Doc.

(** One question/answer record. *)
Record RagResult : Type := MkRagResult {
  query : str;
  answer : str;
  mode : str;
  success : bool
}.

Definition _make_result (query answer : str) : RagResult :=
  MkRagResult query answer "direct_parse" true.

Definition _collect_category_text (sections : list Section) (category : str)
  : str :=
  let parts :=
    map text
        (List.filter (fun s => str_eqb (Doc.category s) category && truthy (text s))
                sections) in
  strip (join [NL; NL] parts).

Definition str_of_nat (n : nat) : str := str_of_Z (Z.of_nat n).

(** [enumerate(l, 1)]. *)
Definition enumerate1 {A} (l : list A) : list (nat * A) :=
  combine (seq 1 (length l)) l.

Definition figure_line (i : nat) (fig : Figure) : str :=
  let cap := strip (caption fig) in
  let path := strip (Doc.path fig) in
  if truthy cap && truthy path then
    "Figure " ++ str_of_nat i ++ ": " ++ cap ++ " (file: " ++ path ++ ")"
  else if truthy cap then "Figure " ++ str_of_nat i ++ ": " ++ cap
  else if truthy path then "Figure " ++ str_of_nat i ++ ": " ++ path
  else "Figure " ++ str_of_nat i ++ ": (no description)".

Definition _summarise_figures (figures : list Figure) : str :=
  match figures with
  | [] => "No figures detected."
  | _ => join [NL] (map (fun '(i, fig) => figure_line i fig) (enumerate1 figures))
  end.

Definition _summarise_tables (tables : list str) : str :=
  match tables with
  | [] => "No tables detected."
  | _ =>
      join [NL]
        (map (fun '(i, tbl) =>
                let preview := replace_char NL " " (firstn 200 (strip tbl)) in
                "Table " ++ str_of_nat i ++ ": " ++ preview)
             (enumerate1 tables))
  end.

Definition _summarise_equations (equations : list str) : str :=
  match equations with
  | [] => "No equations detected."
  | _ =>
      let lines :=
        map (fun '(i, eq) => "Eq. " ++ str_of_nat i ++ ": " ++ firstn 120 (strip eq))
            (enumerate1 (firstn 30 equations)) in
      let lines :=
        if 30 <? length equations then
          lines ++ ["... and " ++ str_of_nat (length equations - 30)
                    ++ " more equations."]
        else lines in
      join [NL] lines
  end.

(** [text + "\n"] and the like: a line that ends with a newline. *)
Definition ln (s : str) : str := s ++ [NL].

Definition section_lines (sec : Section) : list str :=
  let hashes := repeat "#"%char (Z.to_nat (Z.min (Z.max (level sec) 2) 6)) in
  [ln (hashes ++ " " ++ heading sec)]
  ++ (if truthy (text sec) then [ln (text sec)] else []).

Definition _build_export_markdown (E : Fs.Env) (parsed : Parsed)
  (file_path : str) : str :=
  let title := or_else (title parsed) (Fs.stem E file_path) in
  let lines := [ln ("# " ++ title)] in
  let lines :=
    if truthy (authors parsed)
    then lines ++ [ln ("**Authors:** " ++ authors parsed)] else lines in
  let lines :=
    if truthy (abstract parsed)
    then lines ++ [ln "## Abstract"; ln (abstract parsed)] else lines in
  let lines := lines ++ flat_map section_lines (sections parsed) in
  let lines :=
    match figures parsed with
    | [] => lines
    | figs => lines ++ [ln "## Figures"; ln (_summarise_figures figs)]
    end in
  let lines :=
    match tables parsed with
    | [] => lines
    | tbls =>
        lines ++ [ln "## Tables"]
        ++ flat_map (fun '(i, t) => [ln ("### Table " ++ str_of_nat i); ln t])
                    (enumerate1 tbls)
    end in
  let lines :=
    match equations parsed with
    | [] => lines
    | eqs => lines ++ [ln "## Equations"; ln (_summarise_equations eqs)]
    end in
  join [NL] lines.

(** [rag_results]: the dict, in insertion order. *)
Definition build_rag_results (parsed : Parsed) (file_stem : str)
  : list (str * list RagResult) :=
  let title := or_else (title parsed) file_stem in
  let authors := or_else (authors parsed) "Unknown" in
  let abstract := or_else (abstract parsed) "Not provided." in
  let sections := sections parsed in
  let motivation_text := _collect_category_text sections "motivation" in
  let solution_text := _collect_category_text sections "solution" in
  let results_text := _collect_category_text sections "results" in
  let contributions_text := _collect_category_text sections "contributions" in
  let paper_info_text := _collect_category_text sections "paper_info" in
  let paper_info_answer : str :=
    "Title: " ++ title ++ [NL] ++ "Authors: " ++ authors ++ [NL]
    ++ "Abstract: " ++ abstract in
  let paper_info_answer :=
    if truthy paper_info_text
    then paper_info_answer ++ [NL; NL] ++ "Additional content:" ++ [NL]
         ++ paper_info_text
    else paper_info_answer in
  [ ("paper_info" : str,
     [_make_result "What is this document about?" paper_info_answer]);
    ("motivation" : str,
     [_make_result "What is the problem/motivation?"
                   (or_else motivation_text "Not explicitly stated.")]);
    ("solution" : str,
     [_make_result "What is the proposed solution/method?"
                   (or_else solution_text "Not explicitly stated.")]);
    ("results" : str,
     [_make_result "What are the results/findings?"
                   (or_else results_text "Not explicitly stated.")]);
    ("contributions" : str,
     [_make_result "What are the contributions/conclusions?"
                   (or_else contributions_text "Not explicitly stated.")]);
    ("figures" : str,
     [_make_result "What figures are in the document?"
                   (_summarise_figures (figures parsed))]);
    ("tables" : str,
     [_make_result "What tables are in the document?"
                   (_summarise_tables (tables parsed))]);
    ("equations" : str,
     [_make_result "What equations are in the document?"
                   (_summarise_equations (equations parsed))]) ].

(** The checkpoint. *)
Record RagData : Type := MkRagData {
  rag_results : list (str * list RagResult);
  markdown_paths : list str;
  input_path : str;
  content_type : str;
  data_mode : str
}.

(** What is written to a file: a text, or the JSON rendering of the
    checkpoint ([json.dumps(rag_data, ...)]). *)
Inductive Payload : Type :=
| Text (s : str)
| Json (d : RagData).

(** The outcome of a successful call: the value returned and the files
    written, in order. *)
Record Outcome : Type := MkOutcome {
  returned : RagData;
  written : list (str * Payload)
}.

(** Step 1 of [ingest_document]: the parser chosen by the extension. *)
Definition parse_source (E : Fs.Env) (file_path base_dir : str)
  : result Parsed :=
  let ext := lower (Fs.suffix E file_path) in
  if str_eqb ext ".md" || str_eqb ext ".markdown" then
    MdParser.parse_markdown (Fs.read_text E) file_path
  else if str_eqb ext ".tex" then TexParser.parse_latex E file_path
  else if str_eqb ext ".zip" then
    let extract_dir := Fs.join E (Fs.join E base_dir "fast") "zip_extract" in
    bind (ZipHandler.extract_and_find_main E file_path extract_dir)
         (fun main_tex => TexParser.parse_latex E main_tex)
  else
    Raise (ValueError ("ingest_document: unsupported file extension '" ++ ext
                       ++ "' (supported: .md, .markdown, .tex, .zip)")).

(** [ingest_document(file_path, config, base_dir)]; [config_content_type] is
    [config.get("content_type")]. *)
Definition ingest_document (E : Fs.Env) (file_path : str)
  (config_content_type : option str) (base_dir : str) : result Outcome :=
  let content_type := default ("paper" : str) config_content_type in
  bind (parse_source E file_path base_dir) (fun parsed =>
  let fast_dir := Fs.join E base_dir "fast" in
  let rag_output_dir := Fs.join E fast_dir "rag_output" in
  let export_md_path := Fs.join E rag_output_dir "export.md" in
  let export_md_content := _build_export_markdown E parsed file_path in
  let rag_results := build_rag_results parsed (Fs.stem E file_path) in
  let rag_data :=
    MkRagData rag_results [export_md_path] file_path content_type "fast" in
  let checkpoint_path := Fs.join E fast_dir "checkpoint_rag.json" in
  Ok (MkOutcome rag_data
        [(export_md_path, Text export_md_content);
         (checkpoint_path, Json rag_data)])).

End Ingestor.

(** ** Notions used to state the properties *)
Module Props.
Import Py Re Doc.

(** *** Classification, in the words of the specification

    The keyword sets in their priority order; the category of a heading is
    that of the first set with a keyword inside the lower-cased heading, and
    [paper_info] when there is none. *)
Definition md_priority : list (str * list str) :=
  [ ("abstract" : str, strs ["abstract"]);
    ("motivation" : str, MdParser.motivation_keys);
    ("solution" : str, MdParser.solution_keys);
    ("results" : str, MdParser.results_keys);
    ("contributions" : str, MdParser.contributions_keys) ].

Definition tex_priority : list (str * list str) :=
  [ ("abstract" : str, strs ["abstract"]);
    ("motivation" : str, TexParser.motivation_keys);
    ("solution" : str, TexParser.solution_keys);
    ("results" : str, TexParser.results_keys);
    ("contributions" : str, TexParser.contributions_keys) ].

Fixpoint first_match (table : list (str * list str)) (h : str) : str :=
  match table with
  | [] => "paper_info"
  | (cat, keys) :: table' =>
      if existsb (fun k => contains k h) keys then cat else first_match table' h
  end.

Definition categories : list str :=
  strs ["paper_info"; "abstract"; "motivation"; "solution"; "results";
        "contributions"].

(** A field of the document a parser returned. *)
Definition field {A} (f : Parsed -> A) (r : result Parsed) : option A :=
  match r with
  | Ok d => Some (f d)
  | Raise _ => None
  end.

(** *** Braces *)

(** [balanced_from d s]: read from nesting depth [d], the braces of [s]
    never close a group that is not open and leave no group open. *)
Fixpoint balanced_from (d : nat) (s : str) : bool :=
  match s with
  | [] => d =? 0
  | c :: s' =>
      if ch_eqb c "{" then balanced_from (S d) s'
      else if ch_eqb c "}" then
        match d with
        | O => false
        | S d' => balanced_from d' s'
        end
      else balanced_from d s'
  end.

Definition balanced (s : str) : bool := balanced_from 0 s.

(** The loop of [_extract_braced] as a scan of the text from [start] on. *)
Fixpoint scan (s : str) (depth : Z) (buf : str) : str :=
  match s with
  | [] => buf
  | ch :: s' =>
      if ch_eqb ch "{" then
        scan s' (depth + 1)%Z (if (depth >? 0)%Z then buf ++ [ch] else buf)
      else if ch_eqb ch "}" then
        if (depth - 1 =? 0)%Z then buf
        else scan s' (depth - 1)%Z (buf ++ [ch])
      else scan s' depth (if (depth >? 0)%Z then buf ++ [ch] else buf)
  end.

(** *** Equations *)

(** The first occurrences of the elements of a list, in order. *)
Fixpoint first_occurrences (l : list str) : list str :=
  match l with
  | [] => []
  | x :: l' => x :: List.filter (fun y => negb (str_eqb y x)) (first_occurrences l')
  end.

(** *** What a regular expression can do

    [step r st st']: the expression [r] can take the matcher from [st] to
    [st']. The relation only keeps what the properties below need: the
    characters consumed and the groups set. *)
Fixpoint steps (n : nat) (R : state -> state -> Prop) (st st' : state) : Prop :=
  match n with
  | O => st' = st
  | S n' => exists st1, R st st1 /\ steps n' R st1 st'
  end.

Fixpoint step (r : regex) (st st' : state) : Prop :=
  match r with
  | Eps => st' = st
  | Chr p => exists c s', rest st = c :: s' /\ p c = true /\ st' = advance c s' st
  | Seq r1 r2 => exists st1, step r1 st st1 /\ step r2 st1 st'
  | Alt r1 r2 => step r1 st st' \/ step r2 st st'
  | Repeat _ lo hi r1 =>
      exists n, lo <= n /\ (forall h, hi = Some h -> n <= h)
                /\ steps n (step r1) st st'
  | Group n r1 =>
      exists st1, step r1 st st1 /\ st' = set_cap n (pos st) (pos st1) st1
  | Bol _ | Eol _ | NotBehind _ | NotAhead _ | WordB => st' = st
  end.

(** A state of the matcher on [text]: what is left is the text from the
    offset on. *)
Definition on_text (text : str) (st : state) : Prop :=
  rest st = skipn (pos st) text.

(** The level of a Markdown section is the number of hashes of its heading,
    1 to 6; that of a LaTeX section is 1 to 3. *)
Definition md_level_ok (s : Section) : Prop := (1 <= level s <= 6)%Z.
Definition tex_level_ok (s : Section) : Prop := (1 <= level s <= 3)%Z.

(** *** The archive *)

Definition has_class (E : Fs.Env) (f : str) : bool :=
  contains "\documentclass" (ZipHandler.read_or_empty E f).

Definition has_begin (E : Fs.Env) (f : str) : bool :=
  contains "\begin{document}" (ZipHandler.read_or_empty E f).

(** [reader] has a directive that the selector takes for an inclusion of
    [tf]. *)
Definition referenced_by (E : Fs.Env) (reader tf : str) : bool :=
  let content := ZipHandler.read_or_empty E reader in
  existsb (fun m => ZipHandler.names_file E reader
                      (ZipHandler.included_of content m) tf)
          (finditer TexParser.include_re content).

Definition referenced (E : Fs.Env) (files : list str) (tf : str) : bool :=
  existsb (fun reader => referenced_by E reader tf) files.

(** A file with both markers that no other file includes. *)
Definition root_like (E : Fs.Env) (files : list str) (f : str) : bool :=
  has_class E f && has_begin E f && negb (referenced E files f).

(** The number of inclusions of [tf] the three loops count. *)
Definition inclusions_in (E : Fs.Env) (files : list str) (reader tf : str)
  : nat :=
  let content := ZipHandler.read_or_empty E reader in
  list_sum
    (map (fun m =>
            length (List.filter
                      (fun tf' => ZipHandler.names_file E reader
                                    (ZipHandler.included_of content m) tf'
                                  && str_eqb tf' tf)
                      files))
         (finditer TexParser.include_re content)).

Definition inclusions (E : Fs.Env) (files : list str) (tf : str) : nat :=
  list_sum (map (fun reader => inclusions_in E files reader tf) files).

(** [inclusion_count.get(tf, 0)]. *)
Definition get (ic : gmap str Z) (tf : str) : Z := default 0%Z (ic !! tf).

(** The score the selector gives to [tf] when the files listed are
    [files]. *)
Definition file_score (E : Fs.Env) (files : list str) (tf : str) : Z :=
  ZipHandler.score_of
    (ZipHandler.count_inclusions E files (ZipHandler.read_all E files))
    tf (ZipHandler.read_or_empty E tf).

(** *** The checkpoint *)

(** [d.get(k)] on a dict kept in insertion order. *)
Fixpoint lookup_key {V} (k : str) (d : list (str * V)) : option V :=
  match d with
  | [] => None
  | (k', v) :: d' => if str_eqb k' k then Some v else lookup_key k d'
  end.

(** The keys of [rag_results] with their questions. *)
Definition questions : list (str * str) :=
  [ ("paper_info" : str, "What is this document about?" : str);
    ("motivation" : str, "What is the problem/motivation?" : str);
    ("solution" : str, "What is the proposed solution/method?" : str);
    ("results" : str, "What are the results/findings?" : str);
    ("contributions" : str, "What are the contributions/conclusions?" : str);
    ("figures" : str, "What figures are in the document?" : str);
    ("tables" : str, "What tables are in the document?" : str);
    ("equations" : str, "What equations are in the document?" : str) ].

(** The answer stored under a key, when the entry is a single record. *)
Definition answer_of (k : str) (d : list (str * list Ingestor.RagResult))
  : option str :=
  match lookup_key k d with
  | Some [r] => Some (Ingestor.answer r)
  | _ => None
  end.

(** The shape of the checkpoint of a document [parsed], read from a file of
    stem [file_stem]: the eight keys in order, each with one record that
    carries the question of the key, the mode [direct_parse] and success;
    the fixed answers of the categories without content; and the
    [paper_info] answer, which starts with the title, the authors and the
    abstract, with their substitutes when they are empty. *)
Definition rag_contract (parsed : Parsed) (file_stem : str)
  (rr : list (str * list Ingestor.RagResult)) : Prop :=
  map fst rr = map fst questions
  /\ Forall2
       (fun entry q =>
          exists a,
            entry = (fst q, [Ingestor.MkRagResult (snd q) a "direct_parse" true]))
       rr questions
  /\ Forall
       (fun k =>
          Ingestor._collect_category_text (sections parsed) k = [] ->
          answer_of k rr = Some ("Not explicitly stated." : str))
       (strs ["motivation"; "solution"; "results"; "contributions"])
  /\ (figures parsed = [] ->
      answer_of "figures" rr = Some ("No figures detected." : str))
  /\ (tables parsed = [] ->
      answer_of "tables" rr = Some ("No tables detected." : str))
  /\ (equations parsed = [] ->
      answer_of "equations" rr = Some ("No equations detected." : str))
  /\ exists more,
       answer_of "paper_info" rr
       = Some ("Title: " ++ or_else (title parsed) file_stem ++ [NL]
               ++ "Authors: " ++ or_else (authors parsed) "Unknown" ++ [NL]
               ++ "Abstract: " ++ or_else (abstract parsed) "Not provided."
               ++ more).

(** *** A small file system for the examples

    Paths are slash-separated; the files are those of a table. *)
Fixpoint after_last_slash (acc : str) (p : str) : str :=
  match p with
  | [] => acc
  | c :: p' =>
      if ch_eqb c "/" then after_last_slash p' p' else after_last_slash acc p'
  end.

Definition base_name (p : str) : str := after_last_slash p p.

Definition dir_name (p : str) : str :=
  let n := length p - length (base_name p) in
  match n with
  | O => "."
  | S k => firstn k p
  end.

Fixpoint before_last_dot (p : str) : option str :=
  match p with
  | [] => None
  | c :: p' =>
      match before_last_dot p' with
      | Some s => Some (c :: s)
      | None => if ch_eqb c "." then Some [] else None
      end
  end.

Definition file_stem (p : str) : str :=
  let b := base_name p in
  match before_last_dot b with
  | Some [] => b
  | Some s => s
  | None => b
  end.

Definition file_suffix (p : str) : str :=
  let b := base_name p in
  skipn (length (file_stem p)) b.

Definition table_env (files : list (str * str)) (zips : list (str * list str))
  : Fs.Env :=
  Fs.MkEnv
    (fun p => match lookup_key p files with
              | Some s => Ok s
              | None => Raise (OSError p)
              end)
    (fun p => bool_decide (is_Some (lookup_key p files)))
    (fun a b => if startswith "/" b then b else a ++ "/" ++ b)
    dir_name base_name file_stem file_suffix
    (fun z _ => lookup_key z zips).

(** The Markdown text of the end-to-end scenario. *)
Definition my_paper : str :=
  unescape "# My Paper\n\nJane Doe, John Roe\n\n## Abstract\n\nWe study X.\n\n## Introduction\n\nX is hard.\n\n## Method\n\nWe do Y.\n".

(** A file that includes itself. *)
Definition self_env : Fs.Env :=
  table_env [("./main.tex" : str, "A\input{main}B" : str)] [].

(** An archive of three files; only [paper.tex] has both markers and is
    included by no other file. *)
Definition archive_env : Fs.Env :=
  table_env
    [ ("x/intro.tex" : str, "\section{Introduction} Text." : str);
      ("x/paper.tex" : str,
       "\documentclass{article}\begin{document}\input{intro}\input{fig}\end{document}" : str);
      ("x/fig.tex" : str,
       "\documentclass{standalone}\begin{document}F\end{document}" : str) ]
    [ ("a.zip" : str, strs ["x/intro.tex"; "x/paper.tex"; "x/fig.tex"]) ].

(** A small LaTeX document and what the parser returns for it. *)
Definition sample_tex : str :=
  unescape "\\title{T}\n\\section{Introduction}\nWhy.\n\\subsection*{Our Method}\nHow $a+b$ and $a+b$.\n\\subsubsection{Results}\nGood.\n".

Definition sample_tex_doc : Parsed :=
  Eval vm_compute in
    match TexParser.parse_latex_text sample_tex with
    | Ok d => d
    | Raise _ => Doc.empty
    end.

(** A directory with the Markdown file of the scenario. *)
Definition paper_env : Fs.Env :=
  table_env [("in/paper.md" : str, my_paper)] [].

(** What [ingest_document] returns for that file. *)
Definition paper_outcome : Ingestor.Outcome :=
  Eval vm_compute in
    match Ingestor.ingest_document paper_env "in/paper.md" None "out" with
    | Ok o => o
    | Raise _ => Ingestor.MkOutcome (Ingestor.MkRagData [] [] [] [] []) []
    end.

Definition paper_parsed : Parsed :=
  Eval vm_compute in
    match MdParser.parse_markdown_text my_paper with
    | Ok d => d
    | Raise _ => Doc.empty
    end.

(** *** Notions for the further properties *)

(** A text without braces. *)
Definition is_brace (c : ascii) : bool := ch_eqb c "{" || ch_eqb c "}".
Definition brace_free (s : str) : bool := forallb (fun c => negb (is_brace c)) s.

End Props.

(** * Properties *)

Import Py Re Doc Props.

(** ** Section classification *)

Lemma first_match_default (table : list (str * list str)) (h : str) :
  forallb (fun row => negb (existsb (fun k => contains k h) (snd row))) table
  = true ->
  first_match table h = "paper_info".
Proof.
  induction table as [|[cat keys] table IH]; simpl; [reflexivity|].
  intros H. apply andb_true_iff in H as [H1 H2].
  apply negb_true_iff in H1. simpl in H1. rewrite H1. auto.
Qed.

Lemma first_match_in_categories (table : list (str * list str)) (h : str) :
  Forall (fun row => In (fst row) categories) table ->
  In (first_match table h) categories.
Proof.
  induction 1 as [|[cat keys] table Hc _ IH]; simpl.
  - left. reflexivity.
  - destruct (existsb _ keys); [exact Hc | exact IH].
Qed.

Lemma md_priority_categories :
  Forall (fun row => In (fst row) categories) md_priority.
Proof. repeat constructor; simpl; tauto. Qed.

Lemma tex_priority_categories :
  Forall (fun row => In (fst row) categories) tex_priority.
Proof. repeat constructor; simpl; tauto. Qed.

Lemma md_classify_first_match (heading : str) :
  MdParser._classify_section heading = first_match md_priority (lower heading).
Proof.
  unfold MdParser._classify_section, MdParser.any_in, md_priority.
  cbn [first_match strs map existsb]. rewrite orb_false_r. reflexivity.
Qed.

Lemma tex_classify_first_match (heading : str) :
  TexParser._classify_section heading
  = first_match tex_priority (lower heading).
Proof.
  unfold TexParser._classify_section, TexParser.any_in, tex_priority.
  cbn [first_match strs map existsb]. rewrite orb_false_r. reflexivity.
Qed.

(** C3. Classifying a heading is a total function into the six categories:
    for both parsers the category is that of the first keyword set, in the
    order abstract, motivation, solution, results, contributions, one of
    whose keywords occurs in the lower-cased heading, and [paper_info] when
    no set has one. *)
Theorem classify_section_first_match (heading : str) :
  MdParser._classify_section heading = first_match md_priority (lower heading)
  /\ TexParser._classify_section heading
     = first_match tex_priority (lower heading)
  /\ In (MdParser._classify_section heading) categories
  /\ In (TexParser._classify_section heading) categories.
Proof.
  rewrite md_classify_first_match, tex_classify_first_match.
  repeat split.
  - apply first_match_in_categories, md_priority_categories.
  - apply first_match_in_categories, tex_priority_categories.
Qed.

(** ** The brace-matching extractor *)

Lemma nth_error_skipn_cons (text : str) (n : nat) (c : ascii) (tl : str) :
  skipn n text = c :: tl -> nth_error text n = Some c /\ skipn (S n) text = tl.
Proof.
  revert text. induction n as [|n IH]; intros [|x text] H; simpl in *;
    try discriminate.
  - inversion H. auto.
  - apply IH in H. exact H.
Qed.

Lemma index_skipn (text : str) (i : Z) (c : ascii) (tl : str) :
  (0 <= i)%Z -> skipn (Z.to_nat i) text = c :: tl -> TexParser.index text i = Ok c.
Proof.
  intros Hi H. unfold TexParser.index.
  destruct (i <? 0)%Z eqn:E; [apply Z.ltb_lt in E; lia|]. rewrite E.
  apply nth_error_skipn_cons in H as [-> _]. reflexivity.
Qed.

Lemma extract_loop_scan (fuel : nat) (text : str) (i depth : Z) (buf : str) :
  (0 <= i)%Z ->
  (Z.of_nat (length text) - i <= Z.of_nat fuel)%Z ->
  TexParser.extract_loop fuel text i depth buf
  = Ok (scan (skipn (Z.to_nat i) text) depth buf).
Proof.
  revert i depth buf. induction fuel as [|fuel IH]; intros i depth buf Hi Hf.
  - simpl. rewrite skipn_all2 by lia. reflexivity.
  - simpl. destruct (i <? Z.of_nat (length text))%Z eqn:E.
    + apply Z.ltb_lt in E.
      destruct (skipn (Z.to_nat i) text) as [|c tl] eqn:Hs.
      { apply (f_equal (@length ascii)) in Hs. rewrite length_skipn in Hs.
        simpl in Hs. lia. }
      rewrite (index_skipn text i c tl Hi Hs). simpl.
      apply nth_error_skipn_cons in Hs as [_ Hs].
      replace (S (Z.to_nat i)) with (Z.to_nat (i + 1)) in Hs by lia.
      destruct (ch_eqb c "{"); [|destruct (ch_eqb c "}")].
      * rewrite IH by lia. rewrite Hs. reflexivity.
      * destruct (depth - 1 =? 0)%Z; [reflexivity|].
        rewrite IH by lia. rewrite Hs. reflexivity.
      * rewrite IH by lia. rewrite Hs. reflexivity.
    + apply Z.ltb_ge in E. rewrite skipn_all2 by lia. reflexivity.
Qed.

(** From a non-negative [start] the extractor never raises: it returns what
    the scan of [text[start:]] returns. *)
Lemma extract_braced_scan (text : str) (start : Z) :
  (0 <= start)%Z ->
  TexParser._extract_braced text start
  = Ok (scan (skipn (Z.to_nat start) text) 0 []).
Proof.
  intros H. unfold TexParser._extract_braced. apply extract_loop_scan; lia.
Qed.

Lemma scan_balanced (s rest : str) (d : nat) (buf : str) :
  balanced_from d s = true ->
  scan (s ++ "}"%char :: rest) (1 + Z.of_nat d) buf = buf ++ s.
Proof.
  revert d buf. induction s as [|c s IH]; intros d buf H; simpl in *.
  - apply Nat.eqb_eq in H. subst d. simpl. rewrite app_nil_r. reflexivity.
  - destruct (ch_eqb c "{") eqn:E1; [|destruct (ch_eqb c "}") eqn:E2].
    + replace (1 + Z.of_nat d >? 0)%Z with true by (symmetry; apply Z.gtb_lt; lia).
      replace (1 + Z.of_nat d + 1)%Z with (1 + Z.of_nat (S d))%Z by lia.
      rewrite IH by exact H. rewrite <- app_assoc. reflexivity.
    + destruct d as [|d]; [discriminate|].
      replace (1 + Z.of_nat (S d) - 1 =? 0)%Z with false
        by (symmetry; apply Z.eqb_neq; lia).
      replace (1 + Z.of_nat (S d) - 1)%Z with (1 + Z.of_nat d)%Z by lia.
      rewrite IH by exact H. rewrite <- app_assoc. reflexivity.
    + replace (1 + Z.of_nat d >? 0)%Z with true by (symmetry; apply Z.gtb_lt; lia).
      rewrite IH by exact H. rewrite <- app_assoc. reflexivity.
Qed.

(** A balanced group is returned whole, wherever it starts. *)
Lemma extract_braced_balanced (pre s rest : str) :
  balanced s = true ->
  TexParser._extract_braced (pre ++ "{"%char :: s ++ "}"%char :: rest)
                            (Z.of_nat (length pre))
  = Ok s.
Proof.
  intros H. rewrite extract_braced_scan by lia.
  rewrite Nat2Z.id, skipn_app, skipn_all, Nat.sub_diag. simpl.
  f_equal. exact (scan_balanced s rest 0 [] H).
Qed.

Lemma search_cmd_open (tl : str) :
  search (TexParser.command_open_re "cmd") ("\cmd{" ++ tl) 0
  = Some (MkMatch 0 5 ∅).
Proof. reflexivity. Qed.

(** C5. Locating [\cmd] and extracting its braced argument returns the
    argument as it is, nested braces included, whatever the nesting depth:
    for every balanced [s], the argument of [\cmd{s}] is [s]. The example of
    the specification is the case [s = a{b}c]. *)
Theorem extract_command_arg_balanced (s rest : str) :
  balanced s = true ->
  TexParser._extract_command_arg ("\cmd{" ++ s ++ "}" ++ rest) "cmd"
  = Ok (Some s).
Proof.
  intros H. unfold TexParser._extract_command_arg.
  rewrite search_cmd_open.
  change ("\cmd{" ++ s ++ "}" ++ rest)
    with (list_ascii_of_string "\cmd" ++ "{"%char :: s ++ "}"%char :: rest).
  change (Z.of_nat (m_end (MkMatch 0 5 ∅)) - 1)%Z
    with (Z.of_nat (length (list_ascii_of_string "\cmd"))).
  rewrite (extract_braced_balanced _ s rest H). reflexivity.
Qed.

Lemma extract_command_arg_balanced_witness :
  balanced "a{b}c" = true
  /\ TexParser._extract_command_arg "\cmd{a{b}c}" "cmd" = Ok (Some ("a{b}c" : str)).
Proof.
  split; [reflexivity|].
  exact (extract_command_arg_balanced "a{b}c" "" eq_refl).
Defined.

(** C4. A group that is never closed is not answered by the empty string:
    for the text [{abc] the extractor returns what it has buffered, [abc],
    also when it is reached through [\title]. *)
Theorem extract_braced_unterminated :
  TexParser._extract_braced "{abc" 0 = Ok ("abc" : str)
  /\ TexParser._extract_command_arg "\title{abc" "title" = Ok (Some ("abc" : str)).
Proof. split; reflexivity. Qed.

(** ** Equations *)

Lemma str_eqb_eq (a b : str) : str_eqb a b = true <-> a = b.
Proof.
  revert b. induction a as [|x a IH]; intros [|y b]; simpl; split;
    try congruence; try reflexivity.
  - intros H. apply andb_true_iff in H as [H1 H2].
    apply Ascii.eqb_eq in H1. apply IH in H2. congruence.
  - intros H. inversion H; subst. apply andb_true_iff. split.
    + apply Ascii.eqb_refl.
    + apply IH. reflexivity.
Qed.

Lemma str_eqb_refl (a : str) : str_eqb a a = true.
Proof. apply str_eqb_eq. reflexivity. Qed.

Lemma filter_filter_andb {A} (p q : A -> bool) (l : list A) :
  List.filter p (List.filter q l) = List.filter (fun x => q x && p x) l.
Proof.
  induction l as [|x l IH]; simpl; [reflexivity|].
  destruct (q x); simpl; [destruct (p x)|]; rewrite IH; reflexivity.
Qed.

Lemma first_occurrences_filter (p : str -> bool) (l : list str) :
  first_occurrences (List.filter p l) = List.filter p (first_occurrences l).
Proof.
  induction l as [|x l IH]; simpl; [reflexivity|].
  destruct (p x) eqn:Hp; simpl.
  - rewrite IH, !filter_filter_andb. f_equal.
    apply List.filter_ext. intros y. apply andb_comm.
  - rewrite IH, filter_filter_andb. apply List.filter_ext. intros y.
    destruct (str_eqb y x) eqn:E; simpl; [|reflexivity].
    apply str_eqb_eq in E. subst y. exact Hp.
Qed.

Lemma dedup_loop_first_occurrences (eqs : list str) (seen : gset str)
  (acc : list str) :
  TexParser.dedup_loop eqs seen acc
  = acc ++ first_occurrences
             (List.filter (fun x => bool_decide (x ∉ seen)) eqs).
Proof.
  revert seen acc. induction eqs as [|x l IH]; intros seen acc; simpl.
  - rewrite app_nil_r. reflexivity.
  - destruct (decide (x ∉ seen)) as [Hx|Hx].
    + rewrite bool_decide_eq_true_2 by exact Hx. simpl.
      rewrite IH, <- app_assoc. simpl. do 2 f_equal.
      rewrite <- first_occurrences_filter, filter_filter_andb. f_equal.
      apply List.filter_ext. intros y.
      destruct (str_eqb y x) eqn:E.
      * apply str_eqb_eq in E. subst y. rewrite andb_false_r.
        apply bool_decide_eq_false_2. set_solver.
      * rewrite andb_true_r. apply bool_decide_ext.
        assert (Hyx : y <> x)
          by (intros ->; rewrite str_eqb_refl in E; discriminate).
        rewrite not_elem_of_union, not_elem_of_singleton. tauto.
    + rewrite bool_decide_eq_false_2 by exact Hx. apply IH.
Qed.

(** The loop of [parse_latex] keeps the first occurrence of every equation
    and nothing else. *)
Lemma dedup_first_occurrences (eqs : list str) :
  TexParser.dedup eqs = first_occurrences eqs.
Proof.
  unfold TexParser.dedup. rewrite dedup_loop_first_occurrences. simpl. f_equal.
  induction eqs as [|x l IH]; simpl; [reflexivity|].
  rewrite bool_decide_eq_true_2 by set_solver. f_equal. exact IH.
Qed.

Lemma first_occurrences_elem (x : str) (l : list str) :
  In x (first_occurrences l) <-> In x l.
Proof.
  induction l as [|y l IH]; simpl; [tauto|].
  rewrite filter_In, IH. split.
  - intros [H|[H _]]; auto.
  - intros [H|H]; auto.
    destruct (str_eqb x y) eqn:E.
    + apply str_eqb_eq in E. auto.
    + right. auto.
Qed.

Lemma first_occurrences_NoDup (l : list str) :
  List.NoDup (first_occurrences l).
Proof.
  induction l as [|y l IH]; simpl; constructor.
  - rewrite filter_In. intros [_ H]. rewrite str_eqb_refl in H. discriminate.
  - apply List.NoDup_filter. exact IH.
Qed.

(** Every document the LaTeX parser returns has each of its equations
    once. *)
Lemma parse_latex_equations_NoDup (raw : str) (d : Parsed) :
  TexParser.parse_latex_text raw = Ok d -> List.NoDup (equations d).
Proof.
  unfold TexParser.parse_latex_text. intros H.
  repeat match type of H with
         | bind ?x _ = Ok _ => destruct x; simpl in H; [|discriminate]
         end.
  inversion H; subst d. simpl.
  rewrite dedup_first_occurrences. apply first_occurrences_NoDup.
Qed.

(** C2. The Markdown parser does not remove repeated equations: a text with
    the display equation [a+b] twice yields it twice, where the LaTeX
    parser, on the same text, yields it once. *)
Theorem markdown_equations_repeated :
  field equations
    (MdParser.parse_markdown_text (unescape "$$a+b$$\n\n$$a+b$$\n"))
  = Some (strs ["a+b"; "a+b"])
  /\ field equations
       (TexParser.parse_latex_text (unescape "$$a+b$$\n\n$$a+b$$\n"))
     = Some (strs ["a+b"]).
Proof. split; vm_compute; reflexivity. Qed.

(** ** Markdown tables *)

(** Inside the text, a run of three pipe lines is kept as one table. *)
Lemma tables_loop_block3 (l1 l2 l3 other : str) (lines tables : list str) :
  contains "|" (strip l1) = true ->
  contains "|" (strip l2) = true ->
  contains "|" (strip l3) = true ->
  contains "|" (strip other) = false ->
  MdParser.tables_loop (l1 :: l2 :: l3 :: other :: lines) [] tables
  = MdParser.tables_loop lines [] (tables ++ [join [NL] [l1; l2; l3]]).
Proof.
  intros H1 H2 H3 H4. cbn [MdParser.tables_loop app].
  rewrite H1, H2, H3, H4. reflexivity.
Qed.

(** Inside the text, a pipe line on its own that holds no separator row is
    dropped. *)
Lemma tables_loop_isolated (l other : str) (lines tables : list str) :
  contains "|" (strip l) = true ->
  contains "|" (strip other) = false ->
  search MdParser.table_sep_re l 0 = None ->
  MdParser.tables_loop (l :: other :: lines) [] tables
  = MdParser.tables_loop lines [] tables.
Proof.
  intros H1 H2 H3. cbn [MdParser.tables_loop app join length].
  rewrite H1, H2, H3. reflexivity.
Qed.

(** The run that ends the text is kept whatever it is. *)
Lemma collect_tables_last_run (text : str) (l : str) (buf tables : list str) :
  MdParser.tables_loop (splitlines text) [] [] = (l :: buf, tables) ->
  MdParser.collect_tables text = tables ++ [join [NL] (l :: buf)].
Proof. intros H. unfold MdParser.collect_tables. rewrite H. reflexivity. Qed.

(** C8. A block of a header row, a separator row and a data row is one
    table, and a lone pipe line followed by other text is dropped; but a
    lone pipe line that ends the text, with no separator row, is emitted as
    a table. *)
Theorem markdown_last_pipe_line_kept :
  field tables
    (MdParser.parse_markdown_text (unescape "Costs.\n\nx | y\n"))
  = Some (strs ["x | y"])
  /\ MdParser.collect_tables (unescape "x | y\n") = strs ["x | y"]
  /\ MdParser.collect_tables (unescape "x | y\n\nCosts.\n") = []
  /\ MdParser.collect_tables
       (unescape "| a | b |\n|---|---|\n| 1 | 2 |\n\nCosts.\n")
     = [unescape "| a | b |\n|---|---|\n| 1 | 2 |"].
Proof. repeat split; vm_compute; reflexivity. Qed.

(** ** The end-to-end scenario *)

(** The scenario as the specification has it does not hold: the document has
    four sections, the title heading being the first, and no authors. *)
Lemma my_paper_not_as_specified :
  ~ (exists d,
        MdParser.parse_markdown_text my_paper = Ok d
        /\ title d = "My Paper"
        /\ authors d = "Jane Doe, John Roe"
        /\ abstract d = "We study X."
        /\ map category (sections d)
           = strs ["abstract"; "motivation"; "solution"]).
Proof.
  intros (d & H & _ & _ & _ & Hs).
  vm_compute in H. inversion H; subst d. vm_compute in Hs. discriminate Hs.
Qed.

(** For that text the author line is not found: it comes after the title
    heading, and the parser looks for it before the first heading. *)
Lemma my_paper_authors :
  field authors (MdParser.parse_markdown_text my_paper) = Some ([] : str).
Proof. vm_compute. reflexivity. Qed.

(** C1. For the Markdown text of the scenario the parser returns the title
    [My Paper], the abstract [We study X.] and four sections: the title
    heading itself, of level 1 and category [paper_info], then the sections
    of categories [abstract], [motivation] and [solution]. *)
Theorem my_paper_parsed :
  field (fun d => (title d, abstract d,
                   map (fun s => (heading s, level s, category s)) (sections d)))
        (MdParser.parse_markdown (Fs.read_text paper_env) "in/paper.md")
  = Some ("My Paper" : str, "We study X." : str,
          [ ("My Paper" : str, 1%Z, "paper_info" : str);
            ("Abstract" : str, 2%Z, "abstract" : str);
            ("Introduction" : str, 2%Z, "motivation" : str);
            ("Method" : str, 2%Z, "solution" : str) ]).
Proof. vm_compute. reflexivity. Qed.

(** ** Include resolution *)

Lemma sub_includes_ok (replacer : Match -> result str) (text : str)
  (cur : nat) (ms : list Match) :
  (forall m, exists r, replacer m = Ok r) ->
  exists out, TexParser.sub_includes replacer text cur ms = Ok out.
Proof.
  intros Hr. revert cur. induction ms as [|m ms IH]; intros cur; simpl.
  - eauto.
  - destruct (Hr m) as [r ->]. destruct (IH (m_end m)) as [tl ->].
    simpl. eauto.
Qed.

(** With one nested call more than there are depths left up to 6, the
    resolver returns a text. *)
Lemma inline_includes_fuel_ok (fuel : nat) (E : Fs.Env) (text base_dir : str)
  (depth : Z) :
  (6 - depth <= Z.of_nat fuel)%Z ->
  exists out,
    TexParser.inline_includes_fuel (S fuel) E text base_dir depth = Ok out.
Proof.
  revert text base_dir depth.
  induction fuel as [|fuel IH]; intros text base_dir depth Hf;
    cbn [TexParser.inline_includes_fuel];
    (destruct (depth >? 5)%Z eqn:E5; [eauto|]);
    assert (depth <= 5)%Z
      by (destruct (Z.gtb_spec depth 5); [discriminate | lia]).
  - lia.
  - apply sub_includes_ok. intros m.
    destruct (Fs.exists_ E _); [apply IH; lia|].
    destruct (Fs.exists_ E _); [apply IH; lia|]. eauto.
Qed.

Lemma sub_includes_mono (f g : Match -> result str) (text : str) (cur : nat)
  (ms : list Match) (out : str) :
  (forall m r, f m = Ok r -> g m = Ok r) ->
  TexParser.sub_includes f text cur ms = Ok out ->
  TexParser.sub_includes g text cur ms = Ok out.
Proof.
  intros Hfg. revert cur out. induction ms as [|m ms IH]; intros cur out H;
    [exact H|].
  cbn [TexParser.sub_includes] in H |- *.
  destruct (f m) as [r|] eqn:Hr; [|discriminate].
  rewrite (Hfg _ _ Hr). cbn [bind] in H |- *.
  destruct (TexParser.sub_includes f text (m_end m) ms) as [tl|] eqn:Ht;
    [|discriminate].
  rewrite (IH _ _ Ht). exact H.
Qed.

(** The answer does not depend on the budget, once there is an answer. *)
Lemma inline_includes_fuel_stable (fuel : nat) (E : Fs.Env)
  (text base_dir : str) (depth : Z) (out : str) :
  TexParser.inline_includes_fuel fuel E text base_dir depth = Ok out ->
  TexParser.inline_includes_fuel (S fuel) E text base_dir depth = Ok out.
Proof.
  revert text base_dir depth out.
  induction fuel as [|fuel IH]; intros text base_dir depth out H;
    [discriminate|].
  cbn [TexParser.inline_includes_fuel] in H |- *.
  destruct (depth >? 5)%Z; [exact H|].
  eapply sub_includes_mono; [|exact H].
  intros m r. cbv beta.
  destruct (Fs.exists_ E _); [apply IH|].
  destruct (Fs.exists_ E _); [apply IH|]. auto.
Qed.

(** C6. Include resolution returns a text for every file system, text and
    depth, files that include themselves among them; a call at a depth
    above 5 returns its text as it is, directives included; and a file that
    includes itself is expanded at the depths 0 to 5 and left with its
    directive at depth 6. *)
Theorem inline_includes_terminates (E : Fs.Env) (text base_dir : str)
  (depth : Z) (n : nat) :
  (exists out, TexParser._inline_includes E text base_dir depth = Ok out)
  /\ TexParser._inline_includes E text base_dir (6 + Z.of_nat n) = Ok text
  /\ TexParser._inline_includes self_env
       (TexParser._read_file self_env "./main.tex")
       (Fs.parent self_env "./main.tex") 0
     = Ok ("AAAAAAA\input{main}BBBBBBB" : str).
Proof.
  split; [|split].
  - apply inline_includes_fuel_ok. lia.
  - unfold TexParser._inline_includes.
    cbn [TexParser.inline_includes_fuel].
    replace (6 + Z.of_nat n >? 5)%Z with true; [reflexivity|].
    symmetry. apply Z.gtb_lt. lia.
  - vm_compute. reflexivity.
Qed.

(** ** The main file of an archive *)

Lemma get_bump (ic : gmap str Z) (tf' tf : str) :
  get (ZipHandler.bump ic tf') tf
  = (get ic tf + if str_eqb tf' tf then 1 else 0)%Z.
Proof.
  unfold get, ZipHandler.bump. destruct (str_eqb tf' tf) eqn:E.
  - apply str_eqb_eq in E. subst tf'. rewrite lookup_insert_eq. reflexivity.
  - rewrite lookup_insert_ne; [lia|].
    intros ->. rewrite str_eqb_refl in E. discriminate.
Qed.

Lemma get_innermost (c : str -> bool) (l : list str) (ic : gmap str Z)
  (tf : str) :
  get (fold_left (fun ic tf' => if c tf' then ZipHandler.bump ic tf' else ic)
                 l ic) tf
  = (get ic tf
     + Z.of_nat (length (List.filter (fun tf' => c tf' && str_eqb tf' tf) l)))%Z.
Proof.
  revert ic. induction l as [|x l IH]; intros ic; simpl; [lia|].
  rewrite IH. destruct (c x); simpl.
  - rewrite get_bump. destruct (str_eqb x tf); simpl length; lia.
  - lia.
Qed.

Lemma get_reader (E : Fs.Env) (files : list str) (reader content : str)
  (ms : list Match) (ic : gmap str Z) (tf : str) :
  get (fold_left
         (fun ic m =>
            let included := ZipHandler.included_of content m in
            fold_left
              (fun ic tf =>
                 if ZipHandler.names_file E reader included tf
                 then ZipHandler.bump ic tf else ic)
              files ic)
         ms ic) tf
  = (get ic tf
     + Z.of_nat
         (list_sum
            (map (fun m =>
                    length (List.filter
                              (fun tf' =>
                                 ZipHandler.names_file E reader
                                   (ZipHandler.included_of content m) tf'
                                 && str_eqb tf' tf)
                              files))
                 ms)))%Z.
Proof.
  revert ic. induction ms as [|m ms IH]; intros ic; simpl; [lia|].
  rewrite IH, get_innermost. lia.
Qed.

Lemma get_readers (E : Fs.Env) (files readers : list str) (ic : gmap str Z)
  (tf : str) :
  get (fold_left
         (fun ic '(reader_path, content) =>
            fold_left
              (fun ic m =>
                 let included := ZipHandler.included_of content m in
                 fold_left
                   (fun ic tf =>
                      if ZipHandler.names_file E reader_path included tf
                      then ZipHandler.bump ic tf else ic)
                   files ic)
              (finditer TexParser.include_re content) ic)
         (ZipHandler.read_all E readers) ic) tf
  = (get ic tf
     + Z.of_nat
         (list_sum (map (fun reader => inclusions_in E files reader tf) readers)))%Z.
Proof.
  revert ic. induction readers as [|r readers IH]; intros ic; simpl; [lia|].
  rewrite IH, get_reader. unfold inclusions_in. lia.
Qed.

Lemma get_initial (l : list str) (ic : gmap str Z) (tf : str) :
  get ic tf = 0%Z ->
  get (fold_left (fun ic tf => <[tf := 0%Z]> ic) l ic) tf = 0%Z.
Proof.
  revert ic. induction l as [|x l IH]; intros ic H; simpl; [exact H|].
  apply IH. unfold get in *.
  destruct (decide (x = tf)) as [->|Hn].
  - rewrite lookup_insert_eq. reflexivity.
  - rewrite lookup_insert_ne by exact Hn. exact H.
Qed.

(** The three loops count, for every file, the directives of the other files
    that name it. *)
Lemma count_inclusions_get (E : Fs.Env) (files : list str) (tf : str) :
  get (ZipHandler.count_inclusions E files (ZipHandler.read_all E files)) tf
  = Z.of_nat (inclusions E files tf).
Proof.
  unfold ZipHandler.count_inclusions. rewrite get_readers.
  rewrite get_initial by reflexivity. reflexivity.
Qed.

Lemma list_sum_zero (l : list nat) :
  (forall n, In n l -> n = 0) -> list_sum l = 0.
Proof.
  induction l as [|x l IH]; intros H; simpl; [reflexivity|].
  rewrite (H x) by (left; reflexivity). apply IH. intros n Hn. apply H.
  right. exact Hn.
Qed.

Lemma list_sum_ge (l : list nat) (n : nat) : In n l -> n <= list_sum l.
Proof.
  induction l as [|x l IH]; intros H; simpl in *; [contradiction|].
  destruct H as [->|H]; [lia|]. apply IH in H. lia.
Qed.

Lemma inclusions_not_referenced (E : Fs.Env) (files : list str) (tf : str) :
  referenced E files tf = false -> inclusions E files tf = 0.
Proof.
  intros H. unfold inclusions. apply list_sum_zero. intros n Hn.
  apply in_map_iff in Hn as (reader & <- & Hr).
  unfold referenced in H.
  assert (Hrb : referenced_by E reader tf = false).
  { destruct (referenced_by E reader tf) eqn:Eb; [|reflexivity].
    rewrite <- H. symmetry. apply existsb_exists. eauto. }
  unfold inclusions_in. apply list_sum_zero. intros k Hk.
  apply in_map_iff in Hk as (m & <- & Hm).
  destruct (List.filter _ files) as [|y l] eqn:Ef; [reflexivity|].
  assert (Hy : In y (List.filter
                       (fun tf' =>
                          ZipHandler.names_file E reader
                            (ZipHandler.included_of
                               (ZipHandler.read_or_empty E reader) m) tf'
                          && str_eqb tf' tf) files))
    by (rewrite Ef; left; reflexivity).
  apply filter_In in Hy as [_ Hy]. apply andb_true_iff in Hy as [Hy1 Hy2].
  apply str_eqb_eq in Hy2. subst y.
  assert (Hex : referenced_by E reader tf = true).
  { unfold referenced_by. apply existsb_exists. exists m. split; assumption. }
  congruence.
Qed.

Lemma inclusions_referenced (E : Fs.Env) (files : list str) (tf : str) :
  In tf files -> referenced E files tf = true -> 1 <= inclusions E files tf.
Proof.
  intros Hin H. unfold referenced in H.
  apply existsb_exists in H as (reader & Hr & Hb).
  unfold referenced_by in Hb. apply existsb_exists in Hb as (m & Hm & Hn).
  unfold inclusions.
  eapply Nat.le_trans; [|apply list_sum_ge, in_map, Hr].
  unfold inclusions_in.
  eapply Nat.le_trans; [|apply list_sum_ge, in_map, Hm].
  assert (Hf : In tf (List.filter
                        (fun tf' =>
                           ZipHandler.names_file E reader
                             (ZipHandler.included_of
                                (ZipHandler.read_or_empty E reader) m) tf'
                           && str_eqb tf' tf) files)).
  { apply filter_In. split; [exact Hin|].
    rewrite Hn, str_eqb_refl. reflexivity. }
  destruct (List.filter _ files); [contradiction | simpl; lia].
Qed.

Lemma file_score_eq (E : Fs.Env) (files : list str) (tf : str) :
  file_score E files tf
  = ((if has_class E tf then 100 else 0) + (if has_begin E tf then 50 else 0)
     - 10 * Z.of_nat (inclusions E files tf))%Z.
Proof.
  unfold file_score, ZipHandler.score_of.
  change (default 0%Z (?ic !! tf)) with (get ic tf).
  rewrite count_inclusions_get. unfold has_class, has_begin.
  destruct (contains "\documentclass" _), (contains "\begin{document}" _); lia.
Qed.

Lemma file_score_root (E : Fs.Env) (files : list str) (f : str) :
  root_like E files f = true -> file_score E files f = 150%Z.
Proof.
  unfold root_like. intros H.
  apply andb_true_iff in H as [H H3]. apply andb_true_iff in H as [H1 H2].
  apply negb_true_iff in H3.
  rewrite file_score_eq, H1, H2, (inclusions_not_referenced _ _ _ H3).
  reflexivity.
Qed.

Lemma file_score_other (E : Fs.Env) (files : list str) (g : str) :
  In g files -> root_like E files g = false -> (file_score E files g < 150)%Z.
Proof.
  unfold root_like. intros Hin H. rewrite file_score_eq.
  destruct (has_class E g), (has_begin E g); simpl in H; try lia.
  apply negb_false_iff in H.
  pose proof (inclusions_referenced E files g Hin H). lia.
Qed.

(** [max] returns the entry of the root when every other entry scores
    less. *)
Lemma max_from_unique (f : str) (M : Z) (l : list (str * Z)) (best : str * Z) :
  (forall x, In x (best :: l) ->
             (fst x = f /\ snd x = M) \/ (fst x <> f /\ (snd x < M)%Z)) ->
  (exists x, In x (best :: l) /\ fst x = f) ->
  fst (ZipHandler.max_from best l) = f.
Proof.
  revert best. induction l as [|x l IH]; intros best Hgood Hex; simpl.
  - destruct Hex as (y & [<-|[]] & Hy). exact Hy.
  - apply IH.
    + intros y [<-|Hy].
      * destruct (snd best <? snd x)%Z; apply Hgood; simpl; auto.
      * apply Hgood. simpl. auto.
    + destruct (Hgood best) as [[Hb1 Hb2]|[Hb1 Hb2]]; [simpl; auto | |].
      * exists best. split; [|exact Hb1].
        destruct (Hgood x) as [[_ Hx]|[_ Hx]]; [simpl; auto | |];
          (replace (snd best <? snd x)%Z with false
             by (symmetry; apply Z.ltb_ge; lia)); left; reflexivity.
      * destruct Hex as (y & [Hy|[Hy|Hy]] & Hf).
        -- subst y. contradiction.
        -- subst y. exists x. split; [|exact Hf].
           destruct (Hgood x) as [[_ Hx]|[Hx _]]; [simpl; auto | |];
             [|contradiction].
           replace (snd best <? snd x)%Z with true
             by (symmetry; apply Z.ltb_lt; lia).
           left. reflexivity.
        -- exists y. split; [right; exact Hy | exact Hf].
Qed.

Lemma find_main_scores (E : Fs.Env) (files : list str) :
  ZipHandler.find_main E files
  = match map (fun tf => (tf, file_score E files tf)) files with
    | [] => None
    | x :: l => Some (fst (ZipHandler.max_from x l))
    end.
Proof.
  unfold ZipHandler.find_main, ZipHandler.read_all. rewrite map_map.
  reflexivity.
Qed.

Lemma find_main_root (E : Fs.Env) (files : list str) (f : str) :
  In f files ->
  root_like E files f = true ->
  (forall g, In g files -> root_like E files g = true -> g = f) ->
  ZipHandler.find_main E files = Some f.
Proof.
  intros Hin Hroot Huniq. rewrite find_main_scores.
  destruct (map (fun tf => (tf, file_score E files tf)) files) as [|x l] eqn:El.
  - destruct files; [contradiction | discriminate].
  - f_equal. apply (max_from_unique f 150).
    + intros y Hy. rewrite <- El in Hy.
      apply in_map_iff in Hy as (g & <- & Hg). simpl.
      destruct (root_like E files g) eqn:Er.
      * left. split; [apply Huniq; assumption|].
        apply file_score_root. exact Er.
      * right. split; [|apply file_score_other; assumption].
        intros ->. congruence.
    + exists (f, file_score E files f). split; [|reflexivity].
      rewrite <- El. apply (in_map (fun tf => (tf, file_score E files tf))).
      exact Hin.
Qed.

Lemma existsb_Permutation {A} (p : A -> bool) (l l' : list A) :
  Permutation l l' -> existsb p l = existsb p l'.
Proof.
  induction 1; simpl; try congruence.
  destruct (p x), (p y); reflexivity.
Qed.

Lemma inclusions_Permutation (E : Fs.Env) (l l' : list str) (tf : str) :
  Permutation l l' -> referenced E l tf = referenced E l' tf.
Proof. apply existsb_Permutation. Qed.

(** C7. When exactly one file of the archive has the document class and
    the document begin and is included by no other file, the selector
    returns it, in whatever order the files are listed: its score is 150 and
    every other file scores less. *)
Theorem extract_and_find_main_root (E : Fs.Env) (zip_path extract_dir : str)
  (files listing : list str) (f : str) :
  List.NoDup files ->
  In f files ->
  root_like E files f = true ->
  (forall g, In g files -> root_like E files g = true -> g = f) ->
  Permutation files listing ->
  Fs.rglob_tex E zip_path extract_dir = Some listing ->
  ZipHandler.extract_and_find_main E zip_path extract_dir = Ok f
  /\ file_score E listing f = 150%Z
  /\ forall g, In g listing -> g <> f ->
               (file_score E listing g < file_score E listing f)%Z.
Proof.
  intros _ Hin Hroot Huniq Hperm Hls.
  assert (Hrl : forall g, root_like E listing g = root_like E files g).
  { intros g. unfold root_like.
    rewrite (inclusions_Permutation E files listing g Hperm). reflexivity. }
  assert (Hroot' : root_like E listing f = true) by (rewrite Hrl; exact Hroot).
  assert (Hin' : In f listing) by (eapply Permutation_in; eassumption).
  assert (Huniq' : forall g, In g listing -> root_like E listing g = true -> g = f).
  { intros g Hg Hr. apply Huniq; [|rewrite <- Hrl; exact Hr].
    eapply Permutation_in; [apply Permutation_sym|]; eassumption. }
  split; [|split].
  - unfold ZipHandler.extract_and_find_main. rewrite Hls.
    rewrite (find_main_root E listing f Hin' Hroot' Huniq'). reflexivity.
  - apply file_score_root. exact Hroot'.
  - intros g Hg Hne. rewrite (file_score_root E listing f Hroot').
    apply file_score_other; [exact Hg|].
    destruct (root_like E listing g) eqn:Er; [|reflexivity].
    exfalso. apply Hne. apply Huniq'; assumption.
Qed.

Lemma extract_and_find_main_root_witness :
  ZipHandler.extract_and_find_main archive_env "a.zip" "out"
  = Ok ("x/paper.tex" : str)
  /\ file_score archive_env (strs ["x/intro.tex"; "x/paper.tex"; "x/fig.tex"])
       "x/paper.tex" = 150%Z
  /\ forall g, In g (strs ["x/intro.tex"; "x/paper.tex"; "x/fig.tex"]) ->
               g <> ("x/paper.tex" : str) ->
               (file_score archive_env
                  (strs ["x/intro.tex"; "x/paper.tex"; "x/fig.tex"]) g
                < file_score archive_env
                    (strs ["x/intro.tex"; "x/paper.tex"; "x/fig.tex"])
                    "x/paper.tex")%Z.
Proof.
  apply (extract_and_find_main_root archive_env "a.zip" "out"
           (strs ["x/fig.tex"; "x/paper.tex"; "x/intro.tex"])
           (strs ["x/intro.tex"; "x/paper.tex"; "x/fig.tex"])
           "x/paper.tex").
  - repeat constructor; simpl; intuition discriminate.
  - simpl. right. left. reflexivity.
  - vm_compute. reflexivity.
  - intros g [<-|[<-|[<-|[]]]]; vm_compute; intros H;
      first [reflexivity | discriminate H].
  - apply Permutation_rev.
  - reflexivity.
Defined.

(** ** What the matcher returns *)

Lemma repeat_loop_sound
  (body : state -> (state -> option state) -> option state)
  (R : state -> state -> Prop) (greedy : bool) (lo : nat) (hi : option nat)
  (k : state -> option state) :
  (forall st k' res, body st k' = Some res ->
                     exists st', R st st' /\ k' st' = Some res) ->
  forall fuel count st res,
    (forall h, hi = Some h -> count <= h) ->
    repeat_loop body greedy lo hi k fuel count st = Some res ->
    exists n st',
      steps n R st st' /\ lo <= count + n
      /\ (forall h, hi = Some h -> count + n <= h)
      /\ k st' = Some res.
Proof.
  intros Hbody. induction fuel as [|fuel IH]; intros count st res Hhi H.
  - simpl in H. destruct (lo <=? count) eqn:El; [|discriminate].
    apply Nat.leb_le in El. exists 0, st. simpl.
    repeat split; [lia | | exact H]. intros h Hh. specialize (Hhi h Hh). lia.
  - cbn [repeat_loop] in H.
    assert (Hstop : (if lo <=? count then k st else None) = Some res ->
                    exists n st',
                      steps n R st st' /\ lo <= count + n
                      /\ (forall h, hi = Some h -> count + n <= h)
                      /\ k st' = Some res).
    { intros Hs. destruct (lo <=? count) eqn:El; [|discriminate].
      apply Nat.leb_le in El. exists 0, st. simpl.
      repeat split; [lia | | exact Hs]. intros h Hh. specialize (Hhi h Hh). lia. }
    assert (Hmore :
              (if below count hi
               then body st (fun st1 =>
                      if pos st1 =? pos st then None
                      else repeat_loop body greedy lo hi k fuel (S count) st1)
               else None) = Some res ->
              exists n st',
                steps n R st st' /\ lo <= count + n
                /\ (forall h, hi = Some h -> count + n <= h)
                /\ k st' = Some res).
    { intros Hm. destruct (below count hi) eqn:Eb; [|discriminate].
      apply Hbody in Hm as (st1 & HR & Hk).
      destruct (pos st1 =? pos st); [discriminate|].
      apply IH in Hk as (n & st' & Hsteps & Hlo & Hh & Hk).
      - exists (S n), st'. simpl. repeat split.
        + exists st1. auto.
        + lia.
        + intros h E. specialize (Hh h E). lia.
        + exact Hk.
      - intros h E. subst hi. simpl in Eb. apply Nat.ltb_lt in Eb. lia. }
    destruct greedy; unfold orelse in H.
    + destruct (if below count hi then _ else None) eqn:Em.
      * apply Hmore. rewrite <- H. reflexivity.
      * apply Hstop. exact H.
    + destruct (if lo <=? count then k st else None) eqn:Es.
      * apply Hstop. rewrite <- H. reflexivity.
      * apply Hmore. exact H.
Qed.

(** Whatever the matcher returns, the continuation returned it at a state
    the expression can reach. *)
Lemma run_sound (r : regex) :
  forall st k res,
    run r st k = Some res -> exists st', step r st st' /\ k st' = Some res.
Proof.
  induction r as [|p|r1 IH1 r2 IH2|r1 IH1 r2 IH2|greedy lo hi r1 IH1|n r1 IH1
                  |m|m|p|r1 IH1|]; intros st k res H; simpl in H.
  - exists st. simpl. auto.
  - destruct (rest st) as [|c s'] eqn:Er; [discriminate|].
    destruct (p c) eqn:Ep; [|discriminate].
    exists (advance c s' st). simpl. split; [|exact H]. eauto.
  - apply IH1 in H as (st1 & H1 & H). apply IH2 in H as (st2 & H2 & H).
    exists st2. simpl. eauto.
  - unfold orelse in H. destruct (run r1 st k) eqn:E1.
    + rewrite <- H in *. apply IH1 in E1 as (st' & H1 & Hk).
      exists st'. simpl. auto.
    + apply IH2 in H as (st' & H2 & Hk). exists st'. simpl. auto.
  - apply (repeat_loop_sound (run r1) (step r1)) in H
      as (n & st' & Hs & Hlo & Hhi & Hk); [|exact IH1|intros; lia].
    exists st'. simpl. split; [|exact Hk]. exists n. auto.
  - apply IH1 in H as (st1 & H1 & Hk).
    exists (set_cap n (pos st) (pos st1) st1). simpl. eauto.
  - destruct (at_bol m st); [|discriminate]. exists st. simpl. auto.
  - destruct (at_eol m st); [|discriminate]. exists st. simpl. auto.
  - exists st. simpl. split; [reflexivity|].
    destruct (prev st) as [c|]; [destruct (p c); [discriminate|]|]; exact H.
  - destruct (run r1 st Some); [discriminate|]. exists st. simpl. auto.
  - destruct (at_word_boundary st); [|discriminate]. exists st. simpl. auto.
Qed.

(** [n] characters read one after the other. *)
Lemma steps_chr (p : ascii -> bool) (text : str) (n : nat) (st st' : state) :
  on_text text st ->
  steps n (step (Chr p)) st st' ->
  pos st' = pos st + n /\ caps st' = caps st /\ on_text text st'
  /\ (0 < n -> pos st' <= length text).
Proof.
  revert st. induction n as [|n IH]; intros st Hon H; simpl in H.
  - subst st'. repeat split; [lia | exact Hon | lia].
  - destruct H as (st1 & (c & s' & Hr & _ & ->) & H).
    unfold on_text in Hon. rewrite Hr in Hon. symmetry in Hon.
    apply nth_error_skipn_cons in Hon as [Hn Hs].
    apply IH in H as (Hp & Hc & Hon' & Hlen); [|exact (eq_sym Hs)].
    simpl in Hp, Hc. repeat split; [lia | exact Hc | exact Hon' |].
    intros _. destruct n as [|n]; [|apply Hlen; lia].
    rewrite Hp. assert (pos st < length text); [|lia].
    apply nth_error_Some. congruence.
Qed.

(** A repetition of a character class moves on and sets no group. *)
Lemma step_repeat_chr (g : bool) (lo : nat) (hi : option nat)
  (p : ascii -> bool) (text : str) (st st' : state) :
  on_text text st ->
  step (Repeat g lo hi (Chr p)) st st' ->
  caps st' = caps st /\ on_text text st'.
Proof.
  intros Hon (n & _ & _ & H).
  apply (steps_chr p text) in H as (_ & Hc & Hon' & _); auto.
Qed.

(** A match of the heading pattern has 1 to 6 characters in its group 1. *)
Lemma heading_group1 (text : str) (p : nat) (m : Match) :
  match_at MdParser._heading_re text p = Some m ->
  1 <= length (group text m 1) <= 6.
Proof.
  unfold match_at. intros H.
  destruct (run MdParser._heading_re (state_at text p) Some) as [st|] eqn:Hr;
    [|discriminate].
  inversion H; subst m; clear H. unfold group. cbn [m_caps].
  apply run_sound in Hr as (st' & Hstep & Hk). inversion Hk; subst st'; clear Hk.
  unfold MdParser._heading_re in Hstep. cbn [cat step] in Hstep.
  destruct Hstep as (st1 & -> & st2 & (st1' & Hhash & ->) & st3 & Hws
                     & st4 & (st3' & Hdot & ->) & st5 & Hblank & ->).
  assert (Hon : on_text text (state_at text p)) by reflexivity.
  destruct Hhash as (n & Hlo & Hhi & Hhash). specialize (Hhi 6 eq_refl).
  apply (steps_chr _ text) in Hhash as (Hpos & Hcaps & Hon1 & Hlen); [|exact Hon].
  specialize (Hlen ltac:(lia)).
  apply (step_repeat_chr _ _ _ _ text) in Hws as [Hc3 Hon3]; [|exact Hon1].
  apply (step_repeat_chr _ _ _ _ text) in Hdot as [Hc3' Hon3']; [|exact Hon3].
  apply (step_repeat_chr _ _ _ _ text) in Hblank as [Hc5 Hon5]; [|exact Hon3'].
  rewrite Hc5. cbn [set_cap caps]. rewrite lookup_insert_ne by lia.
  rewrite Hc3', Hc3. cbn [set_cap caps]. rewrite lookup_insert_eq.
  unfold slice. rewrite length_firstn, length_skipn.
  cbn [state_at pos] in *. lia.
Qed.

Lemma search_loop_match_at (fuel : nat) (r : regex) (text : str) (p : nat)
  (m : Match) :
  search_loop fuel r text p = Some m -> exists q, match_at r text q = Some m.
Proof.
  revert p. induction fuel as [|fuel IH]; intros p H; simpl in H;
    destruct (match_at r text p) as [m'|] eqn:E.
  - inversion H; subst m'. eauto.
  - discriminate.
  - inversion H; subst m'. eauto.
  - eauto.
Qed.

Lemma finditer_loop_match_at (fuel : nat) (r : regex) (text : str) (p : nat) :
  Forall (fun m => exists q, match_at r text q = Some m)
         (finditer_loop fuel r text p).
Proof.
  revert p. induction fuel as [|fuel IH]; intros p; simpl; [constructor|].
  destruct (search r text p) as [m|] eqn:E; constructor; [|apply IH].
  unfold search in E. destruct (length text <? p); [discriminate|].
  eapply search_loop_match_at. exact E.
Qed.

(** Every match [finditer] returns is a match at some offset. *)
Lemma finditer_match_at (r : regex) (text : str) :
  Forall (fun m => exists q, match_at r text q = Some m) (finditer r text).
Proof. apply finditer_loop_match_at. Qed.

(** ** Section levels *)

Lemma fold_left_sections {A} (g : Parsed -> A -> Parsed) (l : list A)
  (d : Parsed) :
  (forall d x, sections (g d x) = sections d) ->
  sections (fold_left g l d) = sections d.
Proof.
  intros Hg. revert d. induction l as [|x l IH]; intros d; simpl;
    [reflexivity|]. rewrite IH. apply Hg.
Qed.

Lemma for_each_sections {A} (f : A -> Parsed -> result Parsed) (l : list A)
  (d d' : Parsed) :
  (forall x d d', f x d = Ok d' -> sections d' = sections d) ->
  TexParser.for_each f d l = Ok d' -> sections d' = sections d.
Proof.
  intros Hf. revert d. induction l as [|x l IH]; intros d H; simpl in H.
  - inversion H. reflexivity.
  - destruct (f x d) as [d1|] eqn:E; [|discriminate]. simpl in H.
    rewrite (IH _ H). eapply Hf. exact E.
Qed.

Lemma sections_set_abstract_if (b : bool) (t : str) (d : Parsed) :
  sections (if b then set_abstract t d else d) = sections d.
Proof. destruct b; reflexivity. Qed.

Lemma sections_set_title_if (b : bool) (t : str) (d : Parsed) :
  sections (if b then set_title t d else d) = sections d.
Proof. destruct b; reflexivity. Qed.

Lemma md_collect_equations_sections (r : regex) (text : str) (d : Parsed) :
  sections (MdParser.collect_equations r text d) = sections d.
Proof.
  apply fold_left_sections. intros d0 m. cbv zeta.
  destruct (truthy (strip (group text m 1))); reflexivity.
Qed.

Lemma md_collect_figures_sections (text : str) (d : Parsed) :
  sections (MdParser.collect_figures text d) = sections d.
Proof. apply fold_left_sections. reflexivity. Qed.

Lemma md_guess_authors_sections (parts : list str) (d : Parsed) :
  sections (MdParser.guess_authors parts d) = sections d.
Proof.
  unfold MdParser.guess_authors.
  destruct (truthy (authors d)); [reflexivity|].
  destruct (List.filter _ _); [reflexivity|].
  destruct (_ && _); reflexivity.
Qed.

Lemma split_loop_cons (n : nat) (text : str) (cur : nat) (ms : list Match) :
  exists b, split_loop n text cur ms = b :: tail (split_loop n text cur ms).
Proof. destruct ms; simpl; eauto. Qed.

Lemma md_level_ok_mk (h l t c : str) :
  1 <= length l <= 6 -> md_level_ok (MkSection h (Z.of_nat (length l)) t c).
Proof. unfold md_level_ok. cbn [level]. lia. Qed.

(** The loop over the headings never runs out of parts, and gives every
    section the number of hashes of its heading as its level. *)
Lemma md_sections_loop_levels (text : str) (ms : list Match) (cur : nat)
  (d : Parsed) :
  Forall (fun m => 1 <= length (group text m 1) <= 6) ms ->
  Forall md_level_ok (sections d) ->
  exists d',
    MdParser.sections_loop d (tail (split_loop 2 text cur ms)) = Ok d'
    /\ Forall md_level_ok (sections d').
Proof.
  intros Hms. revert cur d.
  induction Hms as [|m ms Hm _ IH]; intros cur d Hd.
  - simpl. eauto.
  - cbn [split_loop seq map app tail].
    destruct (split_loop_cons 2 text (m_end m) ms) as [b ->].
    cbn [MdParser.sections_loop]. apply IH.
    rewrite sections_set_abstract_if. cbn [sections add_section].
    rewrite sections_set_title_if.
    apply Forall_app. split; [exact Hd|].
    constructor; [apply md_level_ok_mk; exact Hm | constructor].
Qed.

(** The Markdown parser returns a document for every text, and the levels
    of its sections are between 1 and 6. *)
Lemma parse_markdown_text_levels (text : str) :
  exists d,
    MdParser.parse_markdown_text text = Ok d
    /\ Forall md_level_ok (sections d).
Proof.
  unfold MdParser.parse_markdown_text.
  destruct (match match_at MdParser.fm_re text 0 with
            | Some m => _
            | None => _
            end) as [frontmatter body].
  match goal with
  | |- exists d, bind (MdParser.sections_loop ?d0 (tail (split 2 ?r ?t))) _ = _ /\ _ =>
      destruct (md_sections_loop_levels t (finditer r t) 0 d0) as (d' & Hd & Hl)
  end.
  - eapply List.Forall_impl; [|apply finditer_match_at].
    intros m [q Hq]. eapply heading_group1. exact Hq.
  - rewrite (fold_left_sections (fun d t => add_table t d)) by reflexivity.
    rewrite md_collect_figures_sections, !md_collect_equations_sections.
    repeat match goal with
           | |- context [match ?x with Some _ => _ | None => _ end] =>
               destruct x
           end; constructor.
  - unfold split. rewrite Hd. cbn [bind]. eexists. split; [reflexivity|].
    rewrite md_guess_authors_sections. exact Hl.
Qed.

Lemma tex_level_map_get_ok (cmd : str) :
  (1 <= TexParser._level_map_get cmd <= 3)%Z.
Proof.
  unfold TexParser._level_map_get.
  repeat match goal with
         | |- context [if ?c then _ else _] => destruct c
         end; lia.
Qed.

Lemma tex_level_ok_mk (h cmd t c : str) :
  tex_level_ok (MkSection h (TexParser._level_map_get cmd) t c).
Proof. unfold tex_level_ok. cbn [level]. apply tex_level_map_get_ok. Qed.

Lemma tex_sections_loop_levels (raw : str) (ms : list Match) (d : Parsed) :
  Forall tex_level_ok (sections d) ->
  Forall tex_level_ok (sections (TexParser.sections_loop raw d ms)).
Proof.
  revert d. induction ms as [|m ms IH]; intros d Hd; [exact Hd|].
  cbn [TexParser.sections_loop]. apply IH.
  rewrite sections_set_abstract_if. cbn [sections add_section].
  apply Forall_app. split; [exact Hd|].
  constructor; [apply tex_level_ok_mk | constructor].
Qed.

Lemma tex_figures_of_env_sections (fig_env : str) (d d' : Parsed) :
  TexParser.figures_of_env fig_env d = Ok d' -> sections d' = sections d.
Proof.
  unfold TexParser.figures_of_env.
  destruct (TexParser.caption_of fig_env); cbn [bind]; [|discriminate].
  intros H. inversion H. apply fold_left_sections. reflexivity.
Qed.

Lemma tex_table_of_env_sections (tbl_env : str) (d d' : Parsed) :
  TexParser.table_of_env tbl_env d = Ok d' -> sections d' = sections d.
Proof.
  unfold TexParser.table_of_env.
  destruct (contains _ tbl_env); [intros H; inversion H; reflexivity|].
  destruct (TexParser.caption_of tbl_env) as [[c|]|]; cbn [bind];
    intros H; inversion H; reflexivity.
Qed.

Lemma tex_add_stripped_sections (d : Parsed) (content : str) :
  sections (TexParser.add_stripped d content) = sections d.
Proof.
  unfold TexParser.add_stripped. destruct (truthy (strip content)); reflexivity.
Qed.

Lemma tex_envs_sections (raw : str) (envs : list str) (d : Parsed) :
  sections
    (fold_left
       (fun d env =>
          fold_left TexParser.add_stripped (TexParser._extract_env raw env) d)
       envs d)
  = sections d.
Proof.
  apply fold_left_sections. intros d0 env.
  apply fold_left_sections, tex_add_stripped_sections.
Qed.

(** The levels of the sections of a LaTeX document are between 1 and 3. *)
Lemma parse_latex_text_levels (raw : str) (d : Parsed) :
  TexParser.parse_latex_text raw = Ok d -> Forall tex_level_ok (sections d).
Proof.
  unfold TexParser.parse_latex_text. intros H.
  destruct (TexParser._extract_command_arg raw "title") as [title_raw|];
    [|discriminate].
  cbn [bind] in H.
  destruct (TexParser._extract_command_arg raw "author") as [author_raw|];
    [|discriminate].
  cbn [bind] in H.
  match type of H with
  | bind (TexParser.for_each _ ?d0 _) _ = _ =>
      assert (H0 : Forall tex_level_ok (sections d0));
      [|destruct (TexParser.for_each TexParser.figures_of_env d0
                    (TexParser._extract_env raw "figure")) as [d1|] eqn:E1;
        [|discriminate]]
  end.
  { apply tex_sections_loop_levels.
    destruct (TexParser._extract_env raw "abstract");
      destruct author_raw as [a|]; try destruct (truthy a);
      destruct title_raw as [t|]; try destruct (truthy t); constructor. }
  apply (for_each_sections _ _ _ _ tex_figures_of_env_sections) in E1.
  cbn [bind] in H.
  match type of H with
  | bind (TexParser.for_each _ ?d1' _) _ = _ =>
      destruct (TexParser.for_each TexParser.table_of_env d1'
                  (TexParser._extract_env raw "table")) as [d2|] eqn:E2;
      [|discriminate]
  end.
  apply (for_each_sections _ _ _ _ tex_table_of_env_sections) in E2.
  cbn [bind] in H. inversion H; subst d; clear H.
  cbn [set_equations sections].
  rewrite !(fold_left_sections _ _ _ tex_add_stripped_sections).
  rewrite E2, !fold_left_sections by reflexivity.
  rewrite E1. exact H0.
Qed.

Lemma export_heading_depth (sec : Section) :
  exists n,
    2 <= n <= 6
    /\ Ingestor.section_lines sec
       = [Ingestor.ln (repeat "#"%char n ++ " " ++ heading sec)]
         ++ (if truthy (text sec) then [Ingestor.ln (text sec)] else []).
Proof.
  exists (Z.to_nat (Z.min (Z.max (level sec) 2) 6)). split; [lia|reflexivity].
Qed.

(** The levels of Markdown sections are not all between 2 and 6: the title
    heading of the scenario is a section of level 1. *)
Lemma markdown_level_below_two :
  ~ (forall text d,
        MdParser.parse_markdown_text text = Ok d ->
        Forall (fun s => (2 <= level s <= 6)%Z) (sections d)).
Proof.
  intros H.
  destruct (MdParser.parse_markdown_text my_paper) as [d|e] eqn:E.
  - specialize (H _ _ E). vm_compute in E. inversion E; subst d.
    apply Forall_inv in H. cbn [level] in H. lia.
  - vm_compute in E. discriminate E.
Qed.

(** C9. Every section the Markdown parser returns has a level between 1
    and 6 (the number of hashes of its heading) and every section the LaTeX
    parser returns a level between 1 and 3; the export renders the heading
    of a section with 2 to 6 hashes. *)
Theorem section_levels_within_caps (markdown raw : str) (dl : Parsed)
  (sec : Section) :
  TexParser.parse_latex_text raw = Ok dl ->
  (exists dm,
      MdParser.parse_markdown_text markdown = Ok dm
      /\ Forall md_level_ok (sections dm))
  /\ Forall tex_level_ok (sections dl)
  /\ exists n,
       2 <= n <= 6
       /\ Ingestor.section_lines sec
          = [Ingestor.ln (repeat "#"%char n ++ " " ++ heading sec)]
            ++ (if truthy (text sec) then [Ingestor.ln (text sec)] else []).
Proof.
  intros H. split; [|split].
  - apply parse_markdown_text_levels.
  - apply parse_latex_text_levels with (raw := raw). exact H.
  - apply export_heading_depth.
Qed.

Lemma section_levels_within_caps_witness :
  (exists dm,
      MdParser.parse_markdown_text my_paper = Ok dm
      /\ Forall md_level_ok (sections dm))
  /\ Forall tex_level_ok (sections sample_tex_doc)
  /\ exists n,
       2 <= n <= 6
       /\ Ingestor.section_lines (MkSection "My Paper" 1 "Jane Doe" "paper_info")
          = [Ingestor.ln (repeat "#"%char n ++ " " ++ "My Paper")]
            ++ [Ingestor.ln "Jane Doe"].
Proof.
  apply (section_levels_within_caps my_paper sample_tex sample_tex_doc
           (MkSection "My Paper" 1 "Jane Doe" "paper_info")).
  vm_compute. reflexivity.
Defined.

(** ** The checkpoint *)

Lemma build_rag_results_contract (parsed : Parsed) (file_stem : str) :
  rag_contract parsed file_stem (Ingestor.build_rag_results parsed file_stem).
Proof.
  unfold rag_contract. split; [reflexivity|]. split; [|split].
  - unfold Ingestor.build_rag_results, questions, Ingestor._make_result.
    repeat (constructor; [eexists; reflexivity|]). constructor.
  - repeat (constructor;
            [intros H; unfold Ingestor.build_rag_results; rewrite H;
             reflexivity|]).
    constructor.
  - split; [|split; [|split]].
    + intros H. unfold Ingestor.build_rag_results. rewrite H. reflexivity.
    + intros H. unfold Ingestor.build_rag_results. rewrite H. reflexivity.
    + intros H. unfold Ingestor.build_rag_results. rewrite H. reflexivity.
    + unfold Ingestor.build_rag_results, answer_of. cbn [lookup_key].
      rewrite str_eqb_refl. cbn [Ingestor._make_result Ingestor.answer].
      destruct (truthy (Ingestor._collect_category_text (sections parsed)
                          "paper_info")).
      * eexists. rewrite <- !app_assoc. reflexivity.
      * exists []. rewrite !app_nil_r. reflexivity.
Qed.

(** C10. For every input that is parsed, the checkpoint [ingest_document]
    returns is the one it writes to [checkpoint_rag.json], and its
    [rag_results] has the eight keys [paper_info], [motivation], [solution],
    [results], [contributions], [figures], [tables], [equations], each with
    one record that carries the question of the key, the mode
    [direct_parse] and success; a category without content has its fixed
    answer, and the [paper_info] answer starts with the title (or the stem
    of the file), the authors (or [Unknown]) and the abstract (or
    [Not provided.]). *)
Theorem ingest_document_rag_results (E : Fs.Env) (file_path : str)
  (config_content_type : option str) (base_dir : str)
  (out : Ingestor.Outcome) :
  Ingestor.ingest_document E file_path config_content_type base_dir = Ok out ->
  exists parsed,
    Ingestor.parse_source E file_path base_dir = Ok parsed
    /\ In (Fs.join E (Fs.join E base_dir "fast") "checkpoint_rag.json",
           Ingestor.Json (Ingestor.returned out))
          (Ingestor.written out)
    /\ rag_contract parsed (Fs.stem E file_path)
         (Ingestor.rag_results (Ingestor.returned out)).
Proof.
  unfold Ingestor.ingest_document. intros H.
  destruct (Ingestor.parse_source E file_path base_dir) as [parsed|];
    [|discriminate].
  cbn [bind] in H. inversion H; subst out; clear H.
  exists parsed. split; [reflexivity|]. split.
  - cbn [Ingestor.written Ingestor.returned]. right. left. reflexivity.
  - apply build_rag_results_contract.
Qed.

Lemma ingest_document_rag_results_witness :
  exists parsed,
    Ingestor.parse_source paper_env "in/paper.md" "out" = Ok parsed
    /\ In (Fs.join paper_env (Fs.join paper_env "out" "fast")
             "checkpoint_rag.json",
           Ingestor.Json (Ingestor.returned paper_outcome))
          (Ingestor.written paper_outcome)
    /\ rag_contract parsed (Fs.stem paper_env "in/paper.md")
         (Ingestor.rag_results (Ingestor.returned paper_outcome)).
Proof.
  apply (ingest_document_rag_results paper_env "in/paper.md" None "out"
           paper_outcome).
  vm_compute. reflexivity.
Defined.

(** * Further properties *)

(** ** The brace-matching extractor, at its bounds *)

Lemma scan_length (s : str) (depth : Z) (buf : str) :
  length (scan s depth buf) <= length buf + length s.
Proof.
  revert depth buf. induction s as [|c s IH]; intros depth buf; simpl; [lia|].
  destruct (ch_eqb c "{"); [|destruct (ch_eqb c "}")].
  - etransitivity; [apply IH|]. destruct (depth >? 0)%Z;
      rewrite ?length_app; simpl; lia.
  - destruct (depth - 1 =? 0)%Z; [lia|].
    etransitivity; [apply IH|]. rewrite length_app. simpl. lia.
  - etransitivity; [apply IH|]. destruct (depth >? 0)%Z;
      rewrite ?length_app; simpl; lia.
Qed.

(** X1. A start index below [-len(text)] makes the extractor raise
    [IndexError], at its first [text[i]]. *)
Theorem extract_braced_index_error (text : str) (start : Z) :
  (start < - Z.of_nat (length text))%Z ->
  TexParser._extract_braced text start = Raise IndexError.
Proof.
  intros H. unfold TexParser._extract_braced.
  destruct (Z.to_nat (Z.of_nat (length text) - start)) as [|fuel] eqn:Ef;
    [lia|].
  cbn [TexParser.extract_loop].
  replace (start <? Z.of_nat (length text))%Z with true
    by (symmetry; apply Z.ltb_lt; lia).
  unfold TexParser.index.
  replace (start <? 0)%Z with true by (symmetry; apply Z.ltb_lt; lia).
  replace (Z.of_nat (length text) + start <? 0)%Z with true
    by (symmetry; apply Z.ltb_lt; lia).
  reflexivity.
Qed.

Lemma extract_braced_index_error_witness :
  (-3 < - Z.of_nat (length (list_ascii_of_string "{a")))%Z
  /\ TexParser._extract_braced "{a" (-3) = Raise IndexError.
Proof.
  split; [simpl; lia|].
  apply (extract_braced_index_error "{a" (-3)). simpl. lia.
Defined.

(** X2. From a start index that is not negative the extractor never raises;
    what it returns is no longer than the text from the start on, and is
    empty when the start is at or beyond the end of the text. *)
Theorem extract_braced_nonneg (text : str) (start : Z) :
  (0 <= start)%Z ->
  exists s,
    TexParser._extract_braced text start = Ok s
    /\ length s <= length text - Z.to_nat start
    /\ ((Z.of_nat (length text) <= start)%Z -> s = []).
Proof.
  intros H. rewrite extract_braced_scan by exact H.
  eexists. split; [reflexivity|]. split.
  - etransitivity; [apply scan_length|]. rewrite length_skipn. simpl. lia.
  - intros Hn. rewrite skipn_all2 by lia. reflexivity.
Qed.

Lemma extract_braced_nonneg_witness :
  exists s,
    TexParser._extract_braced "ab{c}" 2 = Ok s
    /\ length s <= length (list_ascii_of_string "ab{c}") - Z.to_nat 2
    /\ ((Z.of_nat (length (list_ascii_of_string "ab{c}")) <= 2)%Z -> s = []).
Proof. apply (extract_braced_nonneg "ab{c}" 2). lia. Defined.

Lemma scan_brace_free (pre t : str) :
  brace_free pre = true -> scan (pre ++ t) 0 [] = scan t 0 [].
Proof.
  induction pre as [|c pre IH]; intros H; simpl in *; [reflexivity|].
  apply andb_true_iff in H as [Hc H]. unfold is_brace in Hc.
  apply negb_true_iff, orb_false_iff in Hc as [-> ->]. auto.
Qed.

Lemma brace_free_skipn (n : nat) (s : str) :
  brace_free s = true -> brace_free (skipn n s) = true.
Proof.
  revert s. induction n as [|n IH]; intros [|c s] H; simpl in *; auto.
  apply andb_true_iff in H as [_ H]. auto.
Qed.

(** X3. Started at or before an opening brace, with no brace in between,
    the extractor returns the first balanced group, whatever follows it. *)
Theorem extract_braced_first_group (pre s rest : str) (n : nat) :
  n <= length pre ->
  brace_free pre = true ->
  balanced s = true ->
  TexParser._extract_braced (pre ++ "{" ++ s ++ "}" ++ rest) (Z.of_nat n)
  = Ok s.
Proof.
  intros Hn Hpre Hs. rewrite extract_braced_scan by lia.
  rewrite Nat2Z.id, skipn_app.
  replace (n - length pre) with 0 by lia. cbn [skipn].
  rewrite scan_brace_free by (apply brace_free_skipn; exact Hpre).
  f_equal. exact (scan_balanced s rest 0 [] Hs).
Qed.

Lemma extract_braced_first_group_witness :
  3 <= length (list_ascii_of_string "abc  ")
  /\ brace_free "abc  " = true
  /\ balanced "A {B {C}} D" = true
  /\ TexParser._extract_braced "abc  {A {B {C}} D} and {E}" 3
     = Ok ("A {B {C}} D" : str).
Proof.
  split; [simpl; lia|]. split; [reflexivity|]. split; [reflexivity|].
  apply (extract_braced_first_group "abc  " "A {B {C}} D" " and {E}" 3);
    [simpl; lia | reflexivity | reflexivity].
Defined.
